(** * wechat_spider: [src/rule/savePostsData.js]

    A shallow embedding of the article-ingestion rule of the spider
    ([FindProfileHandler], [savePostsData], [getPostDetail], [upsertPosts])
    and the properties of its specification that are settled on it. *)

From Stdlib Require Import ZArith NArith Ascii String.
From stdpp Require Import gmap strings list fin_maps.

Open Scope Z_scope.

(** ** JavaScript data

    A JavaScript string is a sequence of UTF-16 code units; regular
    expressions without the [u] flag, [indexOf] and [trim] all work on code
    units, so strings are lists of code units here. *)

Abbreviation jsstring := (list N).

(** [js "abc"] is the JavaScript string literal ['abc'] (ASCII literals). *)
Definition js (s : string) : jsstring :=
  N_of_ascii <$> list_ascii_of_string s.

(** The double quote, for literals that contain one. *)
Definition dq : N := 34%N.

(** The values that flow through the rule: [undefined], [null], booleans,
    (integral) numbers, strings and [Date]s (milliseconds since the epoch;
    [VInvalidDate] is the [Date] whose time value is [NaN]).
    Arrays and nested objects have types of their own below. *)
Inductive Value :=
  | VUndef
  | VNull
  | VBool (b : bool)
  | VNum (n : Z)
  | VStr (s : jsstring)
  | VDate (ms : Z)
  | VInvalidDate.

#[global] Instance Value_eq_dec : EqDecision Value.
Proof. solve_decision. Defined.

#[global] Instance Value_countable : Countable Value.
Proof.
  refine (inj_countable'
    (fun v => match v with
              | VUndef => inl (inl tt)
              | VNull => inl (inr tt)
              | VBool b => inr (inl b)
              | VNum n => inr (inr (inl n))
              | VStr s => inr (inr (inr (inl s)))
              | VDate ms => inr (inr (inr (inr (Some ms))))
              | VInvalidDate => inr (inr (inr (inr None)))
              end)
    (fun e => match e with
              | inl (inl _) => VUndef
              | inl (inr _) => VNull
              | inr (inl b) => VBool b
              | inr (inr (inl n)) => VNum n
              | inr (inr (inr (inl s))) => VStr s
              | inr (inr (inr (inr (Some ms)))) => VDate ms
              | inr (inr (inr (inr None))) => VInvalidDate
              end) _).
  by intros [].
Defined.

(** JavaScript truthiness: what [if (v)], [!v], [a && b] and [a || b] test. *)
Definition truthy (v : Value) : bool :=
  match v with
  | VUndef | VNull => false
  | VBool b => b
  | VNum n => negb (n =? 0)
  | VStr s => match s with [] => false | _ => true end
  | VDate _ | VInvalidDate => true
  end.

(** [new Date(ms)] for an integral [ms]: a time value beyond 8.64e15
    milliseconds either side of the epoch is clipped to [NaN], which gives
    an invalid [Date] (an object all the same, so truthy). *)
Definition new_Date (ms : Z) : Value :=
  if decide (Z.abs ms <= 8640000000000000) then VDate ms else VInvalidDate.

(** A plain object or a stored document: field name to value.  Reading a
    field that is absent gives [undefined]. *)
Abbreviation Doc := (gmap string Value).

Definition get (f : string) (d : Doc) : Value := default VUndef (d !! f).

(** [obj.f = v] when [v] is truthy ([if (v) obj.f = v]). *)
Definition set_if_truthy (f : string) (v : Value) (d : Doc) : Doc :=
  if truthy v then <[f := v]> d else d.

(** An optional string ([undefined] when absent) as a value. *)
Definition of_opt (o : option jsstring) : Value :=
  match o with Some s => VStr s | None => VUndef end.

(** The identity of an article: the values of [msgBiz], [msgMid], [msgIdx]. *)
Abbreviation PostKey := (Value * Value * Value)%type.

Definition key_doc (k : PostKey) : Doc :=
  {[ "msgBiz" := k.1.1; "msgMid" := k.1.2; "msgIdx" := k.2 ]}.

Definition doc_key (d : Doc) : PostKey :=
  (get "msgBiz" d, get "msgMid" d, get "msgIdx" d).

Example doc_key_key_doc :
  doc_key (key_doc (VStr (js "Bz1"), VStr (js "Mid1"), VStr (js "2")))
  = (VStr (js "Bz1"), VStr (js "Mid1"), VStr (js "2")).
Proof. vm_compute. reflexivity. Qed.

(** ** Promises and the store

    The rule talks to collaborators that live outside [savePostsData.js]:
    the Mongoose models ([models.Post], [models.Profile],
    [models.ProfilePubRecord]) and redis.  Every request sent to them is
    recorded, in the order it is issued. *)
Inductive StoreOp :=
  | PostFindOne (k : PostKey)
  | PostFindOneAndUpdate (k : PostKey) (upd : Doc)
  | ProfileFindOne (biz : Value)
  | ProfileFindOneAndUpdate (biz : Value) (upd : Doc)
  | SavePubRecords (saved : list Doc)
  | RedisLlen (key : jsstring).

#[global] Instance StoreOp_eq_dec : EqDecision StoreOp.
Proof. solve_decision. Defined.

(** The state outside the rule.  [fault i] tells whether the [i]-th request
    (counting from 0) is rejected by the collaborator. *)
Record World := mkWorld {
  posts : gmap PostKey Doc;
  profiles : gmap Value Doc;
  pubRecords : list (list Doc);
  trace : list StoreOp;
  fault : nat -> bool;
}.

(** How an awaited promise ends: resolved with a value, rejected (the
    [await] throws), or never settled. *)
Inductive Outcome (A : Type) :=
  | Resolved (a : A)
  | Rejected
  | Pending.
Arguments Resolved {A} a.
Arguments Rejected {A}.
Arguments Pending {A}.

(** An [async] computation: it reads and changes the world and ends in an
    outcome. *)
Definition M (A : Type) : Type := World -> Outcome A * World.

Definition ret {A} (a : A) : M A := fun w => (Resolved a, w).

Definition bind {A B} (m : M A) (k : A -> M B) : M B :=
  fun w =>
    match m w with
    | (Resolved a, w') => k a w'
    | (Rejected, w') => (Rejected, w')
    | (Pending, w') => (Pending, w')
    end.

Notation "x <- m ;; k" := (bind m (fun x => k))
  (at level 100, m at next level, right associativity).

(** Sending one request: it is recorded, and rejected when the world says
    so. *)
Definition logged (op : StoreOp) (w : World) : World :=
  {| posts := posts w; profiles := profiles w; pubRecords := pubRecords w;
     trace := trace w ++ [op]; fault := fault w |}.

Definition request (op : StoreOp) : M unit :=
  fun w =>
    if fault w (length (trace w)) then (Rejected, logged op w)
    else (Resolved tt, logged op w).

Definition read {A} (f : World -> A) : M A := fun w => (Resolved (f w), w).

Definition write (f : World -> World) : M unit := fun w => (Resolved tt, f w).

Definition set_post (k : PostKey) (d : Doc) (w : World) : World :=
  {| posts := <[k := d]> (posts w); profiles := profiles w;
     pubRecords := pubRecords w; trace := trace w; fault := fault w |}.

Definition set_profile (biz : Value) (d : Doc) (w : World) : World :=
  {| posts := posts w; profiles := <[biz := d]> (profiles w);
     pubRecords := pubRecords w; trace := trace w; fault := fault w |}.

Definition add_pubRecords (saved : list Doc) (w : World) : World :=
  {| posts := posts w; profiles := profiles w;
     pubRecords := pubRecords w ++ [saved]; trace := trace w;
     fault := fault w |}.

(** The models of [../models] are missing from the sources; they are
    modelled from the specification.  Section 6 asks of the store
    "find-by-key and atomic find-and-modify-or-create with partial-field
    set semantics and an upsert flag", and section 3 that the identity
    triple and [biz] are unique keys: a collection holds one document per
    key, an update overwrites the named fields of that document and keeps
    the others, and it creates the document from the key when there is
    none. *)
Module models.

Module Post.
(** Modelled from the spec: [Post.findOne(key)] is missing; "find-by-key",
    the document stored under the key or [null]. *)
Definition findOne (k : PostKey) : M (option Doc) :=
  _ <- request (PostFindOne k) ;;
  read (fun w => posts w !! k).

(** Modelled from the spec: [Post.findOneAndUpdate(key, {$set: upd},
    {upsert: true})] is missing; "atomic find-and-modify-or-create with
    partial-field set semantics".  The result is the document after the
    update (what [{new: true}] returns). *)
Definition findOneAndUpdate (k : PostKey) (upd : Doc) : M Doc :=
  _ <- request (PostFindOneAndUpdate k upd) ;;
  old <- read (fun w => default (key_doc k) (posts w !! k)) ;;
  _ <- write (set_post k (upd ∪ old)) ;;
  ret (upd ∪ old).
End Post.

Module Profile.
(** Modelled from the spec: [Profile.findOne({ msgBiz })] is missing;
    "find-by-key". *)
Definition findOne (biz : Value) : M (option Doc) :=
  _ <- request (ProfileFindOne biz) ;;
  read (fun w => profiles w !! biz).

(** Modelled from the spec: [Profile.findOneAndUpdate({ msgBiz }, {$set:
    upd}, {upsert: true})] is missing; as for the articles. *)
Definition findOneAndUpdate (biz : Value) (upd : Doc) : M Doc :=
  _ <- request (ProfileFindOneAndUpdate biz upd) ;;
  old <- read (fun w => default {[ "msgBiz" := biz ]} (profiles w !! biz)) ;;
  _ <- write (set_profile biz (upd ∪ old)) ;;
  ret (upd ∪ old).
End Profile.

Module ProfilePubRecord.
(** Modelled from the spec: [ProfilePubRecord.savePubRecords] is missing; "a
    publish-history recorder accepting a batch of saved Article records". *)
Definition savePubRecords (saved : list Doc) : M unit :=
  _ <- request (SavePubRecords saved) ;;
  write (add_pubRecords saved).
End ProfilePubRecord.

End models.

(** [redis('llen', key)]: the length is only logged. *)
Definition redis_llen (key : jsstring) : M unit := request (RedisLlen key).

(** [Promise.all(xs.map(async x => ...))]: every callback runs to its
    request while [map] goes through the array, so all the requests are
    issued, in order, whatever becomes of the others; the joined promise is
    rejected when one of them is. *)
Fixpoint Promise_all {A} (ms : list (M A)) : M (list A) :=
  fun w =>
    match ms with
    | [] => (Resolved [], w)
    | m :: ms' =>
        let '(o, w1) := m w in
        let '(os, w2) := Promise_all ms' w1 in
        (match o, os with
         | Resolved a, Resolved l => Resolved (a :: l)
         | Rejected, _ | _, Rejected => Rejected
         | _, _ => Pending
         end, w2)
    end.

(** ** [class FindProfileHandler]

    JavaScript runs each piece of code between two [await]s to completion,
    so a [find] call is two atomic steps: from the call to the point where
    it suspends, and, for the call that issued the query, from the arrival
    of the query's result to its return.  The calls of one handler
    interleave at these points only. *)
Module FindProfileHandler.

(** The two fields set by the constructor.  [profileMap] holds a document
    or [null] ([None]); [profileWaitingMap] holds a reference to the
    [waitingList] array of the key. *)
Record t := mk {
  profileMap : gmap Value (option Doc);
  profileWaitingMap : gmap Value nat;
}.

(** [new FindProfileHandler()] *)
Definition new : t := {| profileMap := ∅; profileWaitingMap := ∅ |}.

(** A handler at run time.  A call of [find] is named by its rank among the
    calls made on the handler.
    - [arrays]: the [waitingList] arrays allocated so far, by reference;
      an array holds the trigger functions pushed on it, each named by the
      call whose promise it resolves;
    - [awaiting]: the calls suspended at [await models.Profile.findOne],
      each with its local variables [biz] and [waitingList];
    - [calls]: the argument of every call so far;
    - [queries]: the argument of every [findOne] issued so far;
    - [returned]: the value each finished call returned;
    - [threw]: the calls whose query was rejected. *)
Record Run := mkRun {
  this : t;
  arrays : gmap nat (list nat);
  awaiting : gmap nat (Value * nat);
  calls : list Value;
  queries : list Value;
  returned : gmap nat (option Doc);
  threw : list nat;
}.

Definition start (h : t) : Run :=
  {| this := h; arrays := ∅; awaiting := ∅; calls := []; queries := [];
     returned := ∅; threw := [] |}.

(** What a call has done when it first gives the control back. *)
Inductive Status :=
  | Returns (doc : option Doc)   (* line 34: the cached value *)
  | Queries (biz : Value)        (* line 42: suspended on its own query *)
  | Waits.                       (* line 55: suspended on the waiting list *)

(** [find(biz)], lines 33-42 and 55-59: up to the first [await]. *)
Definition find_call (biz : Value) (s : Run) : Run * Status :=
  let me := length (calls s) in
  match profileMap (this s) !! biz with
  | Some doc =>
      ({| this := this s; arrays := arrays s; awaiting := awaiting s;
          calls := calls s ++ [biz]; queries := queries s;
          returned := <[me := doc]> (returned s); threw := threw s |},
       Returns doc)
  | None =>
      match profileWaitingMap (this s) !! biz with
      | None =>
          let waitingList := fresh (dom (arrays s)) in
          ({| this := {| profileMap := profileMap (this s);
                         profileWaitingMap :=
                           <[biz := waitingList]> (profileWaitingMap (this s)) |};
              arrays := <[waitingList := []]> (arrays s);
              awaiting := <[me := (biz, waitingList)]> (awaiting s);
              calls := calls s ++ [biz]; queries := queries s ++ [biz];
              returned := returned s; threw := threw s |},
           Queries biz)
      | Some waitingList =>
          ({| this := this s;
              arrays := alter (fun l => l ++ [me]) waitingList (arrays s);
              awaiting := awaiting s;
              calls := calls s ++ [biz]; queries := queries s;
              returned := returned s; threw := threw s |},
           Waits)
      end
  end.

(** [for (const triggerFn of waitingList) triggerFn(doc)]: each waiting
    call's promise is resolved with [doc]. *)
Definition trigger (doc : option Doc) (waitingList : list nat)
    (ret : gmap nat (option Doc)) : gmap nat (option Doc) :=
  foldl (fun r w => <[w := doc]> r) ret waitingList.

(** [find(biz)], lines 42-53: the query of call [me] came back with
    [result] ([None] for no document, which line 43 turns into [null]).
    Not enabled when [me] is not suspended on a query. *)
Definition query_resolves (me : nat) (result : option Doc) (s : Run)
    : option Run :=
  match awaiting s !! me with
  | None => None
  | Some (biz, waitingList) =>
      let doc := result in
      Some {| this := {| profileMap := <[biz := doc]> (profileMap (this s));
                         profileWaitingMap :=
                           delete biz (profileWaitingMap (this s)) |};
              arrays := arrays s;
              awaiting := delete me (awaiting s);
              calls := calls s; queries := queries s;
              returned :=
                <[me := doc]>
                  (trigger doc (default [] (arrays s !! waitingList))
                     (returned s));
              threw := threw s |}
  end.

(** The query of call [me] was rejected: the [await] of line 42 throws and
    the call ends there, leaving both maps as they are. *)
Definition query_rejects (me : nat) (s : Run) : option Run :=
  match awaiting s !! me with
  | None => None
  | Some _ =>
      Some {| this := this s; arrays := arrays s;
              awaiting := delete me (awaiting s);
              calls := calls s; queries := queries s;
              returned := returned s; threw := me :: threw s |}
  end.

Inductive Event :=
  | Call (biz : Value)
  | QueryResolves (me : nat) (result : option Doc)
  | QueryRejects (me : nat).

Definition step (e : Event) (s : Run) : option Run :=
  match e with
  | Call biz => Some (find_call biz s).1
  | QueryResolves me result => query_resolves me result s
  | QueryRejects me => query_rejects me s
  end.

Fixpoint run (es : list Event) (s : Run) : option Run :=
  match es with
  | [] => Some s
  | e :: es' =>
      match step e s with
      | Some s' => run es' s'
      | None => None
      end
  end.

(** How many times [biz] was queried. *)
Definition times_queried (biz : Value) (s : Run) : nat :=
  length (filter (fun b => b = biz) (queries s)).

(** One [find] on a handler that no other call is using: the call, then
    its query if it issued one.  A call that only waits is never woken up. *)
Definition find (biz : Value) (s : Run) : M (option Doc * Run) :=
  let me := length (calls s) in
  match find_call biz s with
  | (s1, Returns doc) => ret (doc, s1)
  | (s1, Queries b) =>
      fun w =>
        match models.Profile.findOne b w with
        | (Resolved result, w') =>
            match query_resolves me result s1 with
            | Some s2 => (Resolved (result, s2), w')
            | None => (Pending, w')
            end
        | (Rejected, w') => (Rejected, w')
        | (Pending, w') => (Pending, w')
        end
  | (s1, Waits) => fun w => (Pending, w)
  end.

(** What holds of a handler however its calls interleave. *)
Record invariant (s : Run) : Prop := mkInvariant {
  (** a key was asked for iff it is resolved or in flight *)
  inv_known : forall biz,
    biz ∈ calls s
    <-> is_Some (profileMap (this s) !! biz)
        \/ is_Some (profileWaitingMap (this s) !! biz);
  (** it was queried once if it was asked for, and never otherwise *)
  inv_queries : forall biz,
    times_queried biz s = if decide (biz ∈ calls s) then 1%nat else 0%nat;
  (** a resolved key has no waiting list *)
  inv_exclusive : forall biz,
    is_Some (profileMap (this s) !! biz) ->
    profileWaitingMap (this s) !! biz = None;
  (** every call for a resolved key has returned the resolved value *)
  inv_cached : forall me biz doc,
    calls s !! me = Some biz -> profileMap (this s) !! biz = Some doc ->
    returned s !! me = Some doc;
  (** a call returns nothing but the resolved value of its key *)
  inv_returned : forall me doc,
    returned s !! me = Some doc ->
    exists biz, calls s !! me = Some biz /\ profileMap (this s) !! biz = Some doc;
  (** the calls for a key in flight are its leader and those on its
      waiting list; the leader is suspended on its query, unless the query
      was rejected *)
  inv_waiting : forall biz ref,
    profileWaitingMap (this s) !! biz = Some ref ->
    exists leader ws,
      arrays s !! ref = Some ws
      /\ calls s !! leader = Some biz
      /\ (forall me, calls s !! me = Some biz -> me = leader \/ me ∈ ws)
      /\ (forall me, me ∈ ws -> calls s !! me = Some biz)
      /\ (forall me ref', awaiting s !! me = Some (biz, ref') -> me = leader)
      /\ (awaiting s !! leader = Some (biz, ref) \/ leader ∈ threw s);
  (** the array a suspended leader holds is the one in the map *)
  inv_awaiting : forall me biz ref,
    awaiting s !! me = Some (biz, ref) ->
    profileWaitingMap (this s) !! biz = Some ref /\ calls s !! me = Some biz;
  (** two keys never share an array *)
  inv_refs : forall b1 b2 ref,
    profileWaitingMap (this s) !! b1 = Some ref ->
    profileWaitingMap (this s) !! b2 = Some ref -> b1 = b2;
}.

End FindProfileHandler.

(** ** Strings and the regular expressions of the rule *)

(** [s.startsWith(p)] *)
Fixpoint starts_with (p s : jsstring) : bool :=
  match p, s with
  | [], _ => true
  | a :: p', b :: s' => (a =? b)%N && starts_with p' s'
  | _ :: _, [] => false
  end.

(** [s.indexOf(p) > -1] *)
Fixpoint includes (p s : jsstring) : bool :=
  starts_with p s
  || match s with
     | [] => false
     | _ :: s' => includes p s'
     end.

(** The character classes used: [.] (anything but a line terminator) and
    [\d]. *)
Definition dot (c : N) : bool :=
  negb ((c =? 10) || (c =? 13) || (c =? 8232) || (c =? 8233))%N.

Definition digit (c : N) : bool := ((48 <=? c) && (c <=? 57))%N.

(** Every regular expression of [getPostDetail] is a literal, one capture
    group and a literal: [pre(c+?)suf], [pre(c*?)suf] or [pre(c+)suf]. *)
Inductive Quantifier := LazyPlus | LazyStar | GreedyPlus.

Record RegExp := mkRegExp {
  pre : jsstring;
  cls : N -> bool;
  quant : Quantifier;
  suf : jsstring;
}.

(** A lazy group followed by [suf], tried at the head of [s]: the shortest
    run of [cls] characters after which [suf] matches; [need] asks for one
    more character before the group may end. *)
Fixpoint lazy_group (cls : N -> bool) (suf : jsstring) (need : bool)
    (s : jsstring) : option jsstring :=
  if negb need && starts_with suf s then Some []
  else match s with
       | c :: s' =>
           if cls c then cons c <$> lazy_group cls suf false s' else None
       | [] => None
       end.

(** A greedy non-empty group followed by [suf]: the longest run of [cls]
    characters after which [suf] matches. *)
Fixpoint greedy_group (cls : N -> bool) (suf : jsstring) (s : jsstring)
    : option jsstring :=
  match s with
  | c :: s' =>
      if cls c then
        match greedy_group cls suf s' with
        | Some t => Some (c :: t)
        | None => if starts_with suf s' then Some [c] else None
        end
      else None
  | [] => None
  end.

(** The group captured by a match that starts at the head of [s]. *)
Definition match_here (re : RegExp) (s : jsstring) : option jsstring :=
  if starts_with (pre re) s then
    let rest := drop (length (pre re)) s in
    match quant re with
    | LazyPlus => lazy_group (cls re) (suf re) true rest
    | LazyStar => lazy_group (cls re) (suf re) false rest
    | GreedyPlus => greedy_group (cls re) (suf re) rest
    end
  else None.

(** The group captured by the leftmost match in [s]. *)
Fixpoint exec (re : RegExp) (s : jsstring) : option jsstring :=
  match match_here re s with
  | Some t => Some t
  | None =>
      match s with
      | [] => None
      | _ :: s' => exec re s'
      end
  end.

(** [getTarget], lines 161-167: [replace] calls the function once, on the
    leftmost match, with the captured group; without a match the target
    stays [undefined]. *)
Definition getTarget (re : RegExp) (body : jsstring) : Value :=
  of_opt (exec re body).

Definition re_wechatId : RegExp :=
  {| pre := js "<span class=" ++ [dq] ++ js "profile_meta_value" ++ [dq] ++ js ">";
     cls := dot; quant := LazyPlus; suf := js "</span>" |}.
Definition re_username : RegExp :=
  {| pre := js "var user_name = " ++ [dq]; cls := dot; quant := LazyPlus;
     suf := [dq] |}.
Definition re_title : RegExp :=
  {| pre := js "var msg_title = " ++ [dq]; cls := dot; quant := LazyPlus;
     suf := [dq] ++ js ";" |}.
Definition re_ct : RegExp :=
  {| pre := js "var ct = " ++ [dq]; cls := digit; quant := GreedyPlus;
     suf := [dq] ++ js ";" |}.
Definition re_sourceUrl : RegExp :=
  {| pre := js "var msg_source_url = '"; cls := dot; quant := LazyStar;
     suf := js "';" |}.
Definition re_cover : RegExp :=
  {| pre := js "var msg_cdn_url = " ++ [dq]; cls := dot; quant := LazyPlus;
     suf := [dq] ++ js ";" |}.
Definition re_digest : RegExp :=
  {| pre := js "var msg_desc = " ++ [dq]; cls := dot; quant := LazyPlus;
     suf := [dq] ++ js ";" |}.
Definition re_headimg : RegExp :=
  {| pre := js "var hd_head_img = " ++ [dq]; cls := dot; quant := LazyPlus;
     suf := [dq] |}.
Definition re_nickname : RegExp :=
  {| pre := js "var nickname = " ++ [dq]; cls := dot; quant := LazyPlus;
     suf := [dq] |}.

(** The test of line 172: some code unit lies in U+4E00..U+9FA5. *)
Definition hasChinese (s : jsstring) : bool :=
  existsb (fun c => (19968 <=? c) && (c <=? 40869))%N s.

(** [parseInt] of a string of decimal digits (what [(\d+)] captures): the
    integer the digits spell.  JavaScript rounds it to a double, which
    changes nothing below 2^53.  The rule only multiplies it by 1000 and
    makes a [Date] of the product (line 177): up to 8640000000000 the
    number and the product are exact, and above it the rounded product is
    above 8.64e15 as the exact one is (rounding is monotone and
    8640000000001000 is a double), so that [new_Date] of the exact product
    is the [Date] the code makes. *)
Definition parseInt (s : jsstring) : Z :=
  foldl (fun acc c => acc * 10 + (Z.of_N c - 48)) 0 s.

(** White space and line terminators, which [trim] removes. *)
Definition is_space (c : N) : bool :=
  ((9 <=? c) && (c <=? 13) || (c =? 32) || (c =? 160) || (c =? 5760)
   || (8192 <=? c) && (c <=? 8202) || (c =? 8232) || (c =? 8233)
   || (c =? 8239) || (c =? 8287) || (c =? 12288) || (c =? 65279))%N.

Fixpoint trim_start (s : jsstring) : jsstring :=
  match s with
  | c :: s' => if is_space c then trim_start s' else s
  | [] => []
  end.

Definition trim (s : jsstring) : jsstring :=
  reverse (trim_start (reverse (trim_start s))).

Example getTarget_title :
  getTarget re_title (js "var a = 1; var msg_title = " ++ [dq] ++ js "Hi" ++ [dq] ++ js ";")
  = VStr (js "Hi").
Proof. vm_compute. reflexivity. Qed.

Example getTarget_ct :
  getTarget re_ct (js "var ct = " ++ [dq] ++ js "1514736000" ++ [dq] ++ js ";")
  = VStr (js "1514736000")
  /\ parseInt (js "1514736000") = 1514736000.
Proof. vm_compute. split; reflexivity. Qed.

Example getTarget_sourceUrl_empty :
  getTarget re_sourceUrl (js "var msg_source_url = '';") = VStr [].
Proof. vm_compute. reflexivity. Qed.

Example getTarget_none : getTarget re_cover (js "<html></html>") = VUndef.
Proof. vm_compute. reflexivity. Qed.

Example trim_example : trim (js "  <p>a b</p> ") = js "<p>a b</p>".
Proof. vm_compute. reflexivity. Qed.

(** ** What the rule takes from the rest of the repository

    [helper.escape2Html], [ContentHandler] and the configuration live in
    files that are not part of these sources, [url.parse] and cheerio are
    libraries; the rule is modelled over them. *)
Record Deps := mkDeps {
  (** [helper.escape2Html(s)] *)
  escape2Html : jsstring -> jsstring;
  (** [url.parse(link, true).query]: parameter name to value (a name that
      occurs once in the query string has a string for value) *)
  url_query : jsstring -> gmap jsstring jsstring;
  (** [new ContentHandler({ link, body }).getIdentifying()] *)
  getIdentifying : jsstring -> option jsstring -> Outcome PostKey;
  (** [new ContentHandler({ link, body }).getBody()] *)
  getBody : jsstring -> option jsstring -> Outcome jsstring;
  (** [cheerio.load(body)('#js_content').html()], [None] for [null] *)
  js_content_html : jsstring -> option jsstring;
  (** [config.rule.page] *)
  isSavePostContent : bool;
  saveContentType : jsstring;
  (** [config.redis.PROFILE_LIST_KEY] *)
  PROFILE_LIST_KEY : jsstring;
}.

(** An outcome that involves no request. *)
Definition lift {A} (o : Outcome A) : M A := fun w => (o, w).

(** ** The listing pushed to [savePostsData] *)

(** An article of a listing entry: [app_msg_ext_info] itself or one item
    of its [multi_app_msg_item_list]. *)
Record AppMsg := mkAppMsg {
  title : option jsstring;
  content_url : option jsstring;
  cover : Value;
  digest : Value;
  source_url : Value;
  author : Value;
  copyright_stat : Value;
}.

Record AppMsgExtInfo := mkAppMsgExtInfo {
  app_msg : AppMsg;
  multi_app_msg_item_list : option (list AppMsg);
}.

(** [comm_msg_info.datetime], in seconds. *)
Record CommMsgInfo := mkCommMsgInfo { datetime : Z }.

Record ListingEntry := mkListingEntry {
  app_msg_ext_info : option AppMsgExtInfo;
  comm_msg_info : CommMsgInfo;
}.

(** What lines 71 and 76 push: [{ appMsg, publishAt }]. *)
Record Unit := mkUnit {
  appMsg : AppMsg;
  publishAt : Value;
}.

(** The body of the [forEach] of lines 67-78: what one entry pushes. *)
Definition entry_units (post : ListingEntry) : list Unit :=
  match app_msg_ext_info post with
  | None => []
  | Some ext =>
      let publishAt := VDate (datetime (comm_msg_info post) * 1000) in
      {| appMsg := app_msg ext; publishAt := publishAt |}
      :: match multi_app_msg_item_list ext with
         | Some ((_ :: _) as multiAppMsg) =>
             (fun appMsg => {| appMsg := appMsg; publishAt := publishAt |})
               <$> multiAppMsg
         | _ => []
         end
  end.

(** Lines 66-78: [posts] after the [forEach]. *)
Definition extract_units (postList : list ListingEntry) : list Unit :=
  foldl (fun posts post => posts ++ entry_units post) [] postList.

Section Rule.

Variable deps : Deps.

(** The callback of lines 83-105; [None] is the [undefined] of line 86. *)
Definition save_unit (post : Unit) : M (option Doc) :=
  let '{| appMsg := appMsg; publishAt := publishAt |} := post in
  match title appMsg, content_url appMsg with
  | Some title, Some link =>
      if negb (truthy (VStr title) && truthy (VStr link)) then ret None
      else
        let link := escape2Html deps link in
        let title := escape2Html deps title in
        let query := url_query deps link in
        let msgBiz := of_opt (query !! js "__biz") in
        let msgMid := of_opt (query !! js "mid") in
        let msgIdx := of_opt (query !! js "idx") in
        let updateQuery : Doc :=
          {[ "title" := VStr title; "link" := VStr link;
             "publishAt" := publishAt; "cover" := cover appMsg;
             "digest" := digest appMsg; "sourceUrl" := source_url appMsg;
             "author" := author appMsg;
             "copyrightStat" := copyright_stat appMsg ]} in
        d <- models.Post.findOneAndUpdate (msgBiz, msgMid, msgIdx) updateQuery ;;
        ret (Some d)
  | _, _ => ret None
  end.

(** [savePostsData(postList)], lines 65-128.  The log lines are left out:
    they read [profile], [savedPosts] and the queue length and change
    nothing. *)
Definition savePostsData (postList : list ListingEntry) : M (list Doc) :=
  let posts := extract_units postList in
  let findProfileHandler := FindProfileHandler.start FindProfileHandler.new in
  savedPosts <- Promise_all (save_unit <$> posts) ;;
  let savedPosts := omap id savedPosts in
  _ <- match savedPosts with
       | p :: _ =>
           profile <- FindProfileHandler.find (get "msgBiz" p) findProfileHandler ;;
           ret tt
       | [] => ret tt
       end ;;
  _ <- models.ProfilePubRecord.savePubRecords savedPosts ;;
  _ <- redis_llen (PROFILE_LIST_KEY deps) ;;
  ret savedPosts.

(** Lines 191 and 210: the record exists and has the three fields. *)
Definition has_all (fs : list string) (doc : option Doc) : bool :=
  match doc with
  | Some d => forallb (fun f => truthy (get f d)) fs
  | None => false
  end.

(** The fields taken from the page, lines 169-184. *)
Record Extracted := mkExtracted {
  x_wechatId : Value;
  x_username : Value;
  x_title : Value;
  x_publishAt : Value;
  x_sourceUrl : Value;
  x_cover : Value;
  x_digest : Value;
  x_headimg : Value;
  x_nickname : Value;
}.

Definition extract (body : jsstring) : Extracted :=
  let wechatId := getTarget re_wechatId body in
  let username := getTarget re_username body in
  let wechatId :=
    match wechatId with
    | VStr s => if truthy wechatId && hasChinese s then username else wechatId
    | _ => wechatId
    end in
  let title := getTarget re_title body in
  let publishAt := getTarget re_ct body in
  let publishAt :=
    match publishAt with
    | VStr s =>
        if truthy publishAt then new_Date (parseInt s * 1000) else publishAt
    | _ => publishAt
    end in
  let sourceUrl := getTarget re_sourceUrl body in
  let cover := getTarget re_cover body in
  let digest := getTarget re_digest body in
  let headimg := getTarget re_headimg body in
  let nickname := getTarget re_nickname body in
  {| x_wechatId := wechatId; x_username := username; x_title := title;
     x_publishAt := publishAt; x_sourceUrl := sourceUrl; x_cover := cover;
     x_digest := digest; x_headimg := headimg; x_nickname := nickname |}.

(** Lines 190-206: the basic fields of the article. *)
Definition basic_updateObj (key : PostKey) (link : jsstring) (x : Extracted)
    : Doc :=
  set_if_truthy "digest" (x_digest x)
    (set_if_truthy "cover" (x_cover x)
      (set_if_truthy "sourceUrl" (x_sourceUrl x)
        (set_if_truthy "publishAt" (x_publishAt x)
          (set_if_truthy "wechatId" (x_wechatId x)
            (set_if_truthy "title" (x_title x)
              (<["link" := VStr link]> (key_doc key))))))).

Definition save_basic_info (key : PostKey) (link : jsstring) (x : Extracted)
    (doc : option Doc) : M unit :=
  if negb (has_all ["title"; "link"; "wechatId"] doc) then
    _ <- models.Post.findOneAndUpdate key (basic_updateObj key link x) ;;
    ret tt
  else ret tt.

(** Lines 208-222: the fields of the profile. *)
Definition profile_updateObj (msgBiz : Value) (x : Extracted) : Doc :=
  set_if_truthy "headimg" (x_headimg x)
    (set_if_truthy "username" (x_username x)
      (set_if_truthy "wechatId" (x_wechatId x)
        (set_if_truthy "title" (x_nickname x)
          {[ "msgBiz" := msgBiz ]}))).

Definition save_profile_info (msgBiz : Value) (x : Extracted)
    (profile : option Doc) : M unit :=
  if negb (has_all ["wechatId"; "username"; "headimg"] profile) then
    _ <- models.Profile.findOneAndUpdate msgBiz (profile_updateObj msgBiz x) ;;
    ret tt
  else ret tt.

(** Lines 229-237: the value of [shouldSaveToDb] at line 241. *)
Definition shouldSaveToDb (doc : option Doc) : bool :=
  let shouldSaveToDb := true in
  match doc with
  | Some d =>
      if truthy (get "html" d)
         && bool_decide (saveContentType deps = js "html")
      then true
      else if truthy (get "content" d)
              && bool_decide (saveContentType deps = js "text")
      then true
      else shouldSaveToDb
  | None => shouldSaveToDb
  end.

(** Lines 242-253: the value of [html] at line 255 ([content] is never
    assigned). *)
Definition content_html (body : jsstring) : Value :=
  let html :=
    if bool_decide (saveContentType deps = js "html")
    then VStr (default [] (js_content_html deps body))
    else VUndef in
  match html with
  | VStr s => if truthy html then VStr (trim s) else html
  | _ => html
  end.

Definition content_updateObj (key : PostKey) (html : Value) : Doc :=
  <["imported" := VBool false]>
    (<["viewed" := VBool true]>
      (set_if_truthy "html" html (key_doc key))).

(** Lines 227-269: the body of the article. *)
Definition save_content (key : PostKey) (doc : option Doc) (body : jsstring)
    : M unit :=
  if isSavePostContent deps then
    if shouldSaveToDb doc then
      let html := content_html body in
      if truthy html then
        _ <- models.Post.findOneAndUpdate key (content_updateObj key html) ;;
        ret tt
      else ret tt
    else ret tt
  else ret tt.

(** Line 150: the page says that the article is gone. *)
Definition invalidated (body : jsstring) : bool :=
  includes (js "global_error_msg") body || includes (js "icon_msg warn") body.

(** [getPostDetail(link, body)], lines 133-270. *)
Definition getPostDetail (link : jsstring) (body : option jsstring) : M unit :=
  if negb (truthy (VStr link)) then ret tt
  else
    key <- lift (getIdentifying deps link body) ;;
    let '(msgBiz, msgMid, msgIdx) := key in
    if negb (truthy msgBiz) || negb (truthy msgMid) || negb (truthy msgIdx)
    then ret tt
    else
      body <- lift (getBody deps link body) ;;
      if invalidated body then
        _ <- models.Post.findOneAndUpdate (msgBiz, msgMid, msgIdx)
               {[ "isFail" := VBool true ]} ;;
        ret tt
      else
        let x := extract body in
        doc <- models.Post.findOne (msgBiz, msgMid, msgIdx) ;;
        _ <- save_basic_info (msgBiz, msgMid, msgIdx) link x doc ;;
        profile <- models.Profile.findOne msgBiz ;;
        _ <- save_profile_info msgBiz x profile ;;
        save_content (msgBiz, msgMid, msgIdx) doc body.

End Rule.

(** ** [upsertPosts], lines 272-292 *)

(** The argument: a falsy value, one record, or an array of records. *)
Inductive UpsertArg :=
  | Falsy
  | One (post : Doc)
  | Many (posts : list Doc).

(** The result: [undefined], one element of [res], or [res]; an element is
    a saved document or [null] ([None]). *)
Inductive UpsertResult :=
  | Undefined
  | Single (saved : option Doc)
  | Array (res : list (option Doc)).

(** The callback of lines 277-288. *)
Definition upsert_one (post : Doc) : M (option Doc) :=
  let '(msgBiz, msgMid, msgIdx) := doc_key post in
  if negb (truthy msgBiz) || negb (truthy msgMid) || negb (truthy msgIdx)
  then ret None
  else
    d <- models.Post.findOneAndUpdate (msgBiz, msgMid, msgIdx) post ;;
    ret (Some d).

Definition upsertPosts (posts : UpsertArg) : M UpsertResult :=
  match posts with
  | Falsy => ret Undefined
  | One post =>
      res <- Promise_all (upsert_one <$> [post]) ;;
      ret (match res with
           | r :: _ => Single r
           | [] => Undefined
           end)
  | Many posts =>
      res <- Promise_all (upsert_one <$> posts) ;;
      ret (Array res)
  end.

(** ** A concrete instance, for the examples *)

(** Cut [s] at the first [c]: what precedes it and, when [c] occurs, what
    follows it. *)
Fixpoint cut_at (c : N) (s : jsstring) : jsstring * option jsstring :=
  match s with
  | [] => ([], None)
  | x :: s' =>
      if (x =? c)%N then ([], Some s')
      else let '(a, b) := cut_at c s' in (x :: a, b)
  end.

(** [s.split(c)] *)
Fixpoint split_on (c : N) (s : jsstring) : list jsstring :=
  match s with
  | [] => [[]]
  | x :: s' =>
      if (x =? c)%N then [] :: split_on c s'
      else match split_on c s' with
           | h :: t => (x :: h) :: t
           | [] => [[x]]
           end
  end.

(** Node's [url.parse(link, true).query] on the links it is used for in the
    examples: the query string runs from the first [?] to the first [#],
    its parts are separated by [&], and a part is a name, [=] and a value.
    Escapes ([%], [+]) are not decoded and a repeated name keeps its first
    value, so this stands for Node on links with neither. *)
Definition node_url_query (link : jsstring) : gmap jsstring jsstring :=
  match cut_at 63 (cut_at 35 link).1 with
  | (_, Some search) =>
      foldl (fun query part =>
               match part with
               | [] => query
               | _ =>
                   let '(name, value) := cut_at 61 part in
                   match query !! name with
                   | Some _ => query
                   | None => <[name := default [] value]> query
                   end
               end)
            ∅ (split_on 38 search)
  | (_, None) => ∅
  end.

(** Modelled from the spec: [helper.escape2Html] of [../utils/helper] is
    missing from the sources; section 4.1 says that the title and the link
    are "HTML-escaped" and decoded.  The entities decoded here are [&lt;],
    [&gt;], [&nbsp;], [&amp;] and [&quot;]. *)
Definition entities : list (jsstring * jsstring) :=
  [ (js "&lt;", js "<"); (js "&gt;", js ">"); (js "&nbsp;", js " ");
    (js "&amp;", js "&"); (js "&quot;", [dq]) ].

Fixpoint decode_entities (skip : nat) (s : jsstring) : jsstring :=
  match s with
  | [] => []
  | c :: s' =>
      match skip with
      | S k => decode_entities k s'
      | O =>
          match List.find (fun e => starts_with e.1 s) entities with
          | Some e => e.2 ++ decode_entities (length e.1 - 1) s'
          | None => c :: decode_entities 0 s'
          end
      end
  end.

(** The triple of a link, as lines 91-94 take it from the query. *)
Definition link_key (query : jsstring -> gmap jsstring jsstring)
    (link : jsstring) : PostKey :=
  (of_opt (query link !! js "__biz"), of_opt (query link !! js "mid"),
   of_opt (query link !! js "idx")).

(** An instance of what the rule depends on: the identity of a page is read
    from its link, the page is the one handed over (fetching one fails), and
    the content is what stands between the markers [<content>] and
    [</content>]. *)
Definition example_deps (save : bool) (type : jsstring) : Deps :=
  {| escape2Html := decode_entities 0;
     url_query := node_url_query;
     getIdentifying := fun link _ => Resolved (link_key node_url_query link);
     getBody := fun _ body =>
       match body with Some b => Resolved b | None => Rejected end;
     js_content_html :=
       exec {| pre := js "<content>"; cls := fun _ => true;
               quant := LazyStar; suf := js "</content>" |};
     isSavePostContent := save;
     saveContentType := type;
     PROFILE_LIST_KEY := js "profile_list" |}.

(** A world with nothing stored, whose requests all succeed. *)
Definition empty_world : World :=
  {| posts := ∅; profiles := ∅; pubRecords := []; trace := [];
     fault := fun _ => false |}.

(** The same world with other faults. *)
Definition with_fault (f : nat -> bool) (w : World) : World :=
  {| posts := posts w; profiles := profiles w; pubRecords := pubRecords w;
     trace := trace w; fault := f |}.

(** The same world with other profiles. *)
Definition with_profiles (p : gmap Value Doc) (w : World) : World :=
  {| posts := posts w; profiles := p; pubRecords := pubRecords w;
     trace := trace w; fault := fault w |}.

Example link_key_example :
  link_key node_url_query (js "https://host/s?__biz=Bz1&mid=Mid1&idx=2")
  = (VStr (js "Bz1"), VStr (js "Mid1"), VStr (js "2")).
Proof. vm_compute. reflexivity. Qed.

Example link_key_padding :
  link_key node_url_query (js "http://mp.weixin.qq.com/s?__biz=MzA3MDM3NjE5NQ==&mid=2650000001&idx=1&sn=ab#rd")
  = (VStr (js "MzA3MDM3NjE5NQ=="), VStr (js "2650000001"), VStr (js "1")).
Proof. vm_compute. reflexivity. Qed.

Example decode_entities_example :
  decode_entities 0 (js "http://h/s?__biz=B&amp;mid=M&amp;idx=1")
  = js "http://h/s?__biz=B&mid=M&idx=1".
Proof. vm_compute. reflexivity. Qed.


(** ** Vocabulary of the properties *)

(** Every request of the world is answered. *)
Definition reliable (w : World) : Prop := forall i, fault w i = false.

(** The record carries its three identifiers (the test of line 279). *)
Definition identified (post : Doc) : bool :=
  truthy (get "msgBiz" post) && truthy (get "msgMid" post)
  && truthy (get "msgIdx" post).

(** The request line 283 sends for a record. *)
Definition upsert_request (post : Doc) : StoreOp :=
  PostFindOneAndUpdate (doc_key post) post.

(** What the callback of [upsertPosts] gives for a record: [null] when an
    identifier is missing, and otherwise a saved document with the
    identity and every field of the record. *)
Definition upserted (post : Doc) (r : option Doc) : Prop :=
  if identified post
  then exists d, r = Some d /\ doc_key d = doc_key post /\ post ⊆ d
  else r = None.

(** The three identifiers are there (the test of line 140). *)
Definition resolved_key (k : PostKey) : bool :=
  truthy k.1.1 && truthy k.1.2 && truthy k.2.

(** The request writes field [f] of an article. *)
Definition sets_post_field (f : string) (op : StoreOp) : bool :=
  match op with
  | PostFindOneAndUpdate _ upd => bool_decide (is_Some (upd !! f))
  | _ => false
  end.

(** The request writes a profile. *)
Definition is_profile_update (op : StoreOp) : bool :=
  match op with
  | ProfileFindOneAndUpdate _ _ => true
  | _ => false
  end.

(** The three basic fields of the article read the same. *)
Definition same_basic_fields (d d' : Doc) : Prop :=
  get "title" d' = get "title" d /\ get "link" d' = get "link" d
  /\ get "wechatId" d' = get "wechatId" d.

(** The request writes one of the three basic fields of an article. *)
Definition writes_basic_field (op : StoreOp) : bool :=
  sets_post_field "title" op || sets_post_field "link" op
  || sets_post_field "wechatId" op.

(** The link of a unit that passes the test of line 86. *)
Definition unit_link (u : Unit) : option jsstring :=
  match title (appMsg u), content_url (appMsg u) with
  | Some t, Some l => if truthy (VStr t) && truthy (VStr l) then Some l else None
  | _, _ => None
  end.

(** The identity lines 88-94 read off a link. *)
Definition unit_key (deps : Deps) (link : jsstring) : PostKey :=
  link_key (url_query deps) (escape2Html deps link).

(** The fields line 98 sets for a unit whose link is [l]. *)
Definition unit_update (deps : Deps) (u : Unit) (l : jsstring) : Doc :=
  {[ "title" := VStr (escape2Html deps (default [] (title (appMsg u))));
     "link" := VStr (escape2Html deps l);
     "publishAt" := publishAt u; "cover" := cover (appMsg u);
     "digest" := digest (appMsg u); "sourceUrl" := source_url (appMsg u);
     "author" := author (appMsg u);
     "copyrightStat" := copyright_stat (appMsg u) ]}.

(** The request a unit sends, if it sends one. *)
Definition unit_request (deps : Deps) (u : Unit) : option StoreOp :=
  l ← unit_link u;
  Some (PostFindOneAndUpdate (unit_key deps l) (unit_update deps u l)).

(** Lines 116-127: what [savePostsData] does once the profile was looked
    up. *)
Definition record_and_return (deps : Deps) (savedPosts : list Doc)
    : M (list Doc) :=
  _ <- models.ProfilePubRecord.savePubRecords savedPosts ;;
  _ <- redis_llen (PROFILE_LIST_KEY deps) ;;
  ret savedPosts.

(** Every stored article has the identity it is stored under (what a
    query by identity finds matches the query). *)
Definition store_ok (w : World) : Prop :=
  forall k d, posts w !! k = Some d -> doc_key d = k.

(** A computation that neither reads nor writes the profiles. *)
Definition profile_blind {A} (m : M A) : Prop :=
  forall p w, m (with_profiles p w) = ((m w).1, with_profiles p (m w).2).

(** The value of a promise that was resolved. *)
Definition value_of {A} (o : Outcome A) : option A :=
  match o with
  | Resolved a => Some a
  | _ => None
  end.

(** ** Data of the examples *)

Definition example_link : jsstring :=
  js "http://mp.weixin.qq.com/s?__biz=Bz1&mid=Mid1&idx=2".

Definition example_key : PostKey :=
  (VStr (js "Bz1"), VStr (js "Mid1"), VStr (js "2")).

(** A page of an article that is on line. *)
Definition example_page : jsstring :=
  js "<html><script>var user_name = " ++ [dq] ++ js "gh_1" ++ [dq]
  ++ js "; var msg_title = " ++ [dq] ++ js "New title" ++ [dq]
  ++ js "; var ct = " ++ [dq] ++ js "1514736000" ++ [dq]
  ++ js ";</script><content> <p>new</p> </content></html>".

(** A page of an article that was taken down. *)
Definition gone_page : jsstring :=
  js "<html><div class='global_error_msg warn'>gone</div></html>".

(** A stored article that has its basic fields and a body. *)
Definition complete_article : Doc :=
  {[ "msgBiz" := VStr (js "Bz1"); "msgMid" := VStr (js "Mid1");
     "msgIdx" := VStr (js "2"); "title" := VStr (js "Old title");
     "link" := VStr example_link; "wechatId" := VStr (js "wx_1");
     "html" := VStr (js "<p>old</p>") ]}.

(** A stored profile that has its fields. *)
Definition complete_profile : Doc :=
  {[ "msgBiz" := VStr (js "Bz1"); "title" := VStr (js "Publisher");
     "wechatId" := VStr (js "wx_1"); "username" := VStr (js "gh_1");
     "headimg" := VStr (js "http://img/1") ]}.

(** A world that holds them, whose requests all succeed. *)
Definition example_world : World :=
  {| posts := {[ example_key := complete_article ]};
     profiles := {[ VStr (js "Bz1") := complete_profile ]};
     pubRecords := []; trace := []; fault := fun _ => false |}.

(** An article of a listing, with the given title and link. *)
Definition title_link_msg (t l : string) : AppMsg :=
  {| title := Some (js t); content_url := Some (js l);
     cover := VStr (js "http://img/c"); digest := VStr (js "d");
     source_url := VStr []; author := VStr (js "a");
     copyright_stat := VNum 11 |}.

(** A listing entry of that one article. *)
Definition example_entry (t l : string) : ListingEntry :=
  {| app_msg_ext_info :=
       Some {| app_msg := title_link_msg t l;
               multi_app_msg_item_list := None |};
     comm_msg_info := {| datetime := 1514736000 |} |}.

Example example_page_extract :
  extract example_page
  = {| x_wechatId := VUndef; x_username := VStr (js "gh_1");
       x_title := VStr (js "New title"); x_publishAt := VDate 1514736000000;
       x_sourceUrl := VUndef; x_cover := VUndef; x_digest := VUndef;
       x_headimg := VUndef; x_nickname := VUndef |}
  /\ invalidated example_page = false
  /\ invalidated gone_page = true.
Proof. vm_compute. repeat split; reflexivity. Qed.

(** ** Further vocabulary *)

(** The units that pass the test of line 86, each with its link. *)
Definition valid_units (units : list Unit) : list (Unit * jsstring) :=
  omap (fun u => l ← unit_link u; Some (u, l)) units.

(** The lookup of line 110: for the first saved article, if there is one. *)
Definition profile_lookup (saved : list Doc) : list StoreOp :=
  match saved with
  | p :: _ => [ProfileFindOne (get "msgBiz" p)]
  | [] => []
  end.

(** The request is about the article [key] or the profile of its
    publisher. *)
Definition concerns (key : PostKey) (op : StoreOp) : Prop :=
  match op with
  | PostFindOne k | PostFindOneAndUpdate k _ => k = key
  | ProfileFindOne biz | ProfileFindOneAndUpdate biz _ => biz = key.1.1
  | SavePubRecords _ | RedisLlen _ => False
  end.

(** The key is in flight on the handler and no call is suspended on its
    query: the query was rejected. *)
Definition stuck (biz : Value) (s : FindProfileHandler.Run) : Prop :=
  FindProfileHandler.profileMap (FindProfileHandler.this s) !! biz = None
  /\ is_Some (FindProfileHandler.profileWaitingMap (FindProfileHandler.this s) !! biz)
  /\ forall me ref, FindProfileHandler.awaiting s !! me <> Some (biz, ref).

(** * Properties *)

(** ** The units of a listing (lines 66-78) *)






(** ** Requests *)

Lemma post_findOneAndUpdate_run (k : PostKey) (upd : Doc) (w : World) :
  models.Post.findOneAndUpdate k upd w
  = let w1 := logged (PostFindOneAndUpdate k upd) w in
    let d := upd ∪ default (key_doc k) (posts w !! k) in
    if fault w (length (trace w)) then (Rejected, w1)
    else (Resolved d, set_post k d w1).
Proof.
  unfold models.Post.findOneAndUpdate, bind, request, read, write, ret.
  by destruct (fault w (length (trace w))).
Qed.

Lemma post_findOne_run (k : PostKey) (w : World) :
  models.Post.findOne k w
  = let w1 := logged (PostFindOne k) w in
    if fault w (length (trace w)) then (Rejected, w1)
    else (Resolved (posts w !! k), w1).
Proof.
  unfold models.Post.findOne, bind, request, read.
  by destruct (fault w (length (trace w))).
Qed.

Lemma profile_findOne_run (biz : Value) (w : World) :
  models.Profile.findOne biz w
  = let w1 := logged (ProfileFindOne biz) w in
    if fault w (length (trace w)) then (Rejected, w1)
    else (Resolved (profiles w !! biz), w1).
Proof.
  unfold models.Profile.findOne, bind, request, read.
  by destruct (fault w (length (trace w))).
Qed.

Lemma profile_findOneAndUpdate_run (biz : Value) (upd : Doc) (w : World) :
  models.Profile.findOneAndUpdate biz upd w
  = let w1 := logged (ProfileFindOneAndUpdate biz upd) w in
    let d := upd ∪ default {[ "msgBiz" := biz ]} (profiles w !! biz) in
    if fault w (length (trace w)) then (Rejected, w1)
    else (Resolved d, set_profile biz d w1).
Proof.
  unfold models.Profile.findOneAndUpdate, bind, request, read, write, ret.
  by destruct (fault w (length (trace w))).
Qed.

(** ** [upsertPosts] *)

Lemma truthy_get_union (f : string) (d old : Doc) :
  truthy (get f d) = true -> get f (d ∪ old) = get f d.
Proof.
  unfold get. destruct (d !! f) as [v|] eqn:E; [|done].
  intros _. by erewrite lookup_union_Some_l.
Qed.

Lemma identified_union (post old : Doc) :
  identified post = true -> doc_key (post ∪ old) = doc_key post.
Proof.
  unfold identified, doc_key. intros H.
  apply andb_true_iff in H as [H H3]. apply andb_true_iff in H as [H1 H2].
  by rewrite !truthy_get_union.
Qed.

Lemma upsert_one_run (post : Doc) (w : World) :
  upsert_one post w
  = if identified post then
      match models.Post.findOneAndUpdate (doc_key post) post w with
      | (Resolved d, w') => (Resolved (Some d), w')
      | (Rejected, w') => (Rejected, w')
      | (Pending, w') => (Pending, w')
      end
    else (Resolved None, w).
Proof.
  unfold upsert_one, identified, doc_key, bind, ret.
  destruct (truthy (get "msgBiz" post)), (truthy (get "msgMid" post)),
    (truthy (get "msgIdx" post)); simpl; try done;
  by destruct (models.Post.findOneAndUpdate _ _ w) as [[]].
Qed.

(** What the joined callbacks of line 277 do. *)
Lemma upsert_all_run (records : list Doc) (w : World) :
  exists o w',
    Promise_all (upsert_one <$> records) w = (o, w')
    /\ trace w' = trace w ++ (upsert_request <$> filter (fun p => identified p = true) records)
    /\ fault w' = fault w
    /\ profiles w' = profiles w
    /\ pubRecords w' = pubRecords w
    /\ (forall k, k ∉ doc_key <$> filter (fun p => identified p = true) records ->
                  posts w' !! k = posts w !! k)
    /\ (forall res, o = Resolved res ->
          Forall2 upserted records res)
    /\ (reliable w -> exists res, o = Resolved res).
Proof.
  revert w. induction records as [|post records IH]; intros w.
  - exists (Resolved []), w. simpl. rewrite app_nil_r.
    repeat split; eauto. intros res [= <-]. constructor.
  - rewrite fmap_cons. cbn [Promise_all]. rewrite upsert_one_run.
    rewrite filter_cons.
    destruct (identified post) eqn:Hid.
    + rewrite post_findOneAndUpdate_run. cbv zeta.
      destruct (fault w (length (trace w))) eqn:Hf.
      * destruct (IH (logged (PostFindOneAndUpdate (doc_key post) post) w))
          as (o & w' & -> & Ht & Hfa & Hp & Hr & Hk & Hres & Hrel).
        exists Rejected, w'. rewrite decide_True by done.
        split; [by destruct o|].
        rewrite Ht, Hfa, Hp, Hr. cbn. rewrite <- app_assoc.
        repeat split; try done.
        -- intros k Hk'. apply not_elem_of_cons in Hk' as [_ Hk'].
           by rewrite Hk.
        -- intros Hrel'. by rewrite Hrel' in Hf.
      * set (d := post ∪ default (key_doc (doc_key post)) (posts w !! doc_key post)).
        destruct (IH (set_post (doc_key post) d (logged (PostFindOneAndUpdate (doc_key post) post) w)))
          as (o & w' & -> & Ht & Hfa & Hp & Hr & Hk & Hres & Hrel).
        exists (match o with Resolved l => Resolved (Some d :: l) | Rejected => Rejected | Pending => Pending end), w'.
        rewrite decide_True by done.
        split; [by destruct o|].
        rewrite Ht, Hfa, Hp, Hr. cbn. rewrite <- app_assoc.
        repeat split; try done.
        -- intros k Hk'. apply not_elem_of_cons in Hk' as [Hne Hk'].
           rewrite Hk by done. cbn. by rewrite lookup_insert_ne.
        -- intros res Ho. destruct o as [l| |]; simplify_eq.
           constructor; [|by apply Hres].
           unfold upserted. rewrite Hid. exists d. split; [done|].
           split; [by apply identified_union|]. apply map_union_subseteq_l.
        -- intros Hrel'. destruct Hrel as [l ->]; [done|]. eauto.
    + destruct (IH w) as (o & w' & -> & Ht & Hfa & Hp & Hr & Hk & Hres & Hrel).
      exists (match o with Resolved l => Resolved (None :: l) | Rejected => Rejected | Pending => Pending end), w'.
      rewrite decide_False by done.
      split; [by destruct o|].
      repeat split; try done.
      * intros res Ho. destruct o as [l| |]; simplify_eq.
        constructor; [unfold upserted; by rewrite Hid|by apply Hres].
      * intros Hrel'. destruct Hrel as [l ->]; [done|]. eauto.
Qed.

Lemma identified_doc_key (p q : Doc) :
  doc_key p = doc_key q -> identified p = identified q.
Proof. unfold doc_key, identified. by intros [= -> -> ->]. Qed.

Lemma upsertPosts_many_run (records : list Doc) (w : World) :
  upsertPosts (Many records) w
  = match Promise_all (upsert_one <$> records) w with
    | (Resolved res, w') => (Resolved (Array res), w')
    | (Rejected, w') => (Rejected, w')
    | (Pending, w') => (Pending, w')
    end.
Proof.
  unfold upsertPosts, bind, ret.
  by destruct (Promise_all _ w) as [[]].
Qed.

Lemma upserted_identified (records : list Doc) (res : list (option Doc)) :
  Forall2 upserted records res ->
  Forall (fun p => identified p = true) records ->
  Forall2 (fun p r => exists d, r = Some d /\ doc_key d = doc_key p /\ p ⊆ d)
    records res.
Proof.
  induction 1 as [|p r ps rs Hp Hps IH]; intros Hall; [constructor|].
  apply Forall_cons in Hall as [Hp' Hall]. constructor; [|by apply IH].
  unfold upserted in Hp. by rewrite Hp' in Hp.
Qed.

(** The joined callbacks of line 277 on a store that takes every request,
    for records that all carry their identifiers: one request per record,
    in order; a record gets its own fields over what was stored when no
    earlier record has its identity; what it gets is what is stored in the
    end when no later record has its identity. *)
Lemma upsert_all_stored (records : list Doc) (w : World) :
  reliable w ->
  Forall (fun p => identified p = true) records ->
  exists res w',
    Promise_all (upsert_one <$> records) w = (Resolved res, w')
    /\ trace w' = trace w ++ (upsert_request <$> records)
    /\ (forall i p r, records !! i = Some p -> res !! i = Some r ->
          (forall j q, (j < i)%nat -> records !! j = Some q ->
                       doc_key q <> doc_key p) ->
          r = Some (p ∪ default (key_doc (doc_key p)) (posts w !! doc_key p)))
    /\ (forall i p r, records !! i = Some p -> res !! i = Some r ->
          (forall j q, (i < j)%nat -> records !! j = Some q ->
                       doc_key q <> doc_key p) ->
          posts w' !! doc_key p = r)
    /\ (forall p, p ∈ records ->
          exists i q d, records !! i = Some q /\ doc_key q = doc_key p
                        /\ res !! i = Some (Some d)
                        /\ posts w' !! doc_key p = Some d)
    /\ (forall k, k ∉ doc_key <$> records -> posts w' !! k = posts w !! k).
Proof.
  intros Hrel Hall. revert w Hrel.
  induction Hall as [|post records Hid Hall IH]; intros w Hrel.
  - exists [], w. cbn. rewrite app_nil_r. split; [done|]. split; [done|].
    split; [done|]. split; [done|]. split; [|done].
    intros p Hp. by apply elem_of_nil in Hp.
  - rewrite fmap_cons. cbn [Promise_all].
    rewrite upsert_one_run, Hid, post_findOneAndUpdate_run. cbv zeta.
    rewrite Hrel.
    set (key := doc_key post).
    set (d := post ∪ default (key_doc key) (posts w !! key)).
    set (w1 := set_post key d (logged (PostFindOneAndUpdate key post) w)).
    assert (Hrel1 : reliable w1) by done.
    destruct (IH w1 Hrel1)
      as (res & w' & -> & Ht & Hfirst & Hlast & Hsome & Hother).
    exists (Some d :: res), w'. split; [done|].
    assert (Hkeep : key ∉ doc_key <$> records -> posts w' !! key = Some d).
    { intros Hk. rewrite Hother by done. cbn. apply lookup_insert_eq. }
    assert (Hnotin : (forall j q, records !! j = Some q -> doc_key q <> key) ->
                     key ∉ doc_key <$> records).
    { intros Hi Hin. apply list_elem_of_fmap in Hin as (q & Hq & Hin).
      apply list_elem_of_lookup in Hin as [j Hj].
      by apply (Hi j q Hj). }
    split; [|split; [|split; [|split]]].
    + rewrite Ht. cbn. by rewrite <- app_assoc.
    + intros [|i] p r Hp Hr Hearlier; cbn in Hp, Hr.
      * by simplify_eq.
      * rewrite (Hfirst i p r Hp Hr).
        2:{ intros j q Hj Hq. apply (Hearlier (S j) q); [lia|done]. }
        assert (Hne : key <> doc_key p)
          by (apply (Hearlier 0%nat post); [lia|done]).
        cbn. by rewrite lookup_insert_ne.
    + intros [|i] p r Hp Hr Hlater; cbn in Hp, Hr.
      * simplify_eq. apply Hkeep, Hnotin.
        intros j q Hq. apply (Hlater (S j) q); [lia|done].
      * apply (Hlast i p r Hp Hr).
        intros j q Hj Hq. apply (Hlater (S j) q); [lia|done].
    + intros p Hp.
      destruct (decide (doc_key p ∈ doc_key <$> records)) as [Hin|Hnin].
      * apply list_elem_of_fmap in Hin as (p' & Hk & Hin).
        destruct (Hsome p' Hin) as (i & q & d' & Hq & Hkq & Hr & Hst).
        exists (S i), q, d'. by rewrite Hk.
      * apply elem_of_cons in Hp as [->|Hp].
        -- exists 0%nat, post, d. repeat split; try done. by apply Hkeep.
        -- exfalso. apply Hnin. apply list_elem_of_fmap. eauto.
    + intros k Hk. rewrite fmap_cons in Hk.
      apply not_elem_of_cons in Hk as [Hne Hk].
      rewrite Hother by done. cbn. by rewrite lookup_insert_ne.
Qed.

(** C8. On a store that answers, [upsertPosts] called with an array of
    records that carry their identifiers returns an array of as many saved
    documents, the i-th having the identity and every field of the i-th
    record (for the records [{A, x: 1}] and [{B, y: 2}]: two documents,
    keyed [A] and [B]).  It sends one update per record, in order, each
    setting the whole record; a record whose identity no other record of
    the array has gets its own fields over the fields that were stored,
    and that document is the one then stored; for every record the
    document stored under its identity is one that was returned for that
    identity; the other articles are as they were.  Called with one such
    record, not in an array, it sends that one update and returns the
    saved document itself, the record over what was stored, which is the
    one then stored under the record's identity. *)
Theorem upsertPosts_keeps_cardinality
    (w : World) (records : list Doc) (post : Doc) :
  reliable w ->
  Forall (fun p => identified p = true) records ->
  identified post = true ->
  (exists res w',
     upsertPosts (Many records) w = (Resolved (Array res), w')
     /\ length res = length records
     /\ Forall2 (fun p r => exists d, r = Some d /\ doc_key d = doc_key p /\ p ⊆ d)
          records res
     /\ trace w' = trace w ++ (upsert_request <$> records)
     /\ (forall i p r, records !! i = Some p -> res !! i = Some r ->
           (forall j q, j <> i -> records !! j = Some q ->
                        doc_key q <> doc_key p) ->
           r = Some (p ∪ default (key_doc (doc_key p)) (posts w !! doc_key p))
           /\ posts w' !! doc_key p = r)
     /\ (forall p, p ∈ records ->
           exists i q d, records !! i = Some q /\ doc_key q = doc_key p
                         /\ res !! i = Some (Some d)
                         /\ posts w' !! doc_key p = Some d)
     /\ (forall k, k ∉ doc_key <$> records -> posts w' !! k = posts w !! k))
  /\ (exists d w',
        upsertPosts (One post) w = (Resolved (Single (Some d)), w')
        /\ doc_key d = doc_key post
        /\ post ⊆ d
        /\ posts w' !! doc_key post = Some d
        /\ d = post ∪ default (key_doc (doc_key post)) (posts w !! doc_key post)
        /\ trace w' = trace w ++ [upsert_request post]).
Proof.
  intros Hrel Hall Hid. split.
  - destruct (upsert_all_run records w)
      as (o & w' & Hrun & _ & _ & _ & _ & _ & Hres & _).
    destruct (upsert_all_stored records w Hrel Hall)
      as (res & w2 & Hrun2 & Ht & Hfirst & Hlast & Hsome & Hother).
    rewrite Hrun2 in Hrun. injection Hrun as <- <-.
    exists res, w2. rewrite upsertPosts_many_run, Hrun2.
    specialize (Hres res eq_refl).
    split; [done|]. split; [symmetry; by eapply Forall2_length|].
    split; [by apply upserted_identified|].
    split; [done|]. split; [|done].
    intros i p r Hp Hr Honly. split.
    + apply (Hfirst i p r Hp Hr). intros j q Hj. apply Honly. lia.
    + apply (Hlast i p r Hp Hr). intros j q Hj. apply Honly. lia.
  - unfold upsertPosts, bind, ret. cbn [fmap list_fmap Promise_all].
    rewrite upsert_one_run, Hid, post_findOneAndUpdate_run. cbv zeta.
    rewrite Hrel. eexists _, _. split; [reflexivity|].
    split; [by apply identified_union|].
    split; [apply map_union_subseteq_l|].
    split; [cbn; apply lookup_insert_eq|].
    split; reflexivity.
Qed.

Lemma upsertPosts_keeps_cardinality_witness :
  let A : Doc := {[ "msgBiz" := VStr (js "A"); "msgMid" := VStr (js "1");
                    "msgIdx" := VStr (js "1"); "x" := VNum 1 ]} in
  let B : Doc := {[ "msgBiz" := VStr (js "B"); "msgMid" := VStr (js "1");
                    "msgIdx" := VStr (js "1"); "y" := VNum 2 ]} in
  let w := empty_world in
  let records := [A; B] in
  (exists res w',
     upsertPosts (Many records) w = (Resolved (Array res), w')
     /\ length res = 2%nat
     /\ Forall2 (fun p r => exists d, r = Some d /\ doc_key d = doc_key p /\ p ⊆ d)
          records res
     /\ trace w' = trace w ++ (upsert_request <$> records)
     /\ (forall i p r, records !! i = Some p -> res !! i = Some r ->
           (forall j q, j <> i -> records !! j = Some q ->
                        doc_key q <> doc_key p) ->
           r = Some (p ∪ default (key_doc (doc_key p)) (posts w !! doc_key p))
           /\ posts w' !! doc_key p = r)
     /\ (forall p, p ∈ records ->
           exists i q d, records !! i = Some q /\ doc_key q = doc_key p
                         /\ res !! i = Some (Some d)
                         /\ posts w' !! doc_key p = Some d)
     /\ (forall k, k ∉ doc_key <$> records -> posts w' !! k = posts w !! k))
  /\ (exists d w',
        upsertPosts (One A) w = (Resolved (Single (Some d)), w')
        /\ doc_key d = doc_key A
        /\ A ⊆ d
        /\ posts w' !! doc_key A = Some d
        /\ d = A ∪ default (key_doc (doc_key A)) (posts w !! doc_key A)
        /\ trace w' = trace w ++ [upsert_request A]).
Proof.
  intros A B w records.
  apply (upsertPosts_keeps_cardinality w records A).
  - intros i. reflexivity.
  - repeat constructor.
  - vm_compute. reflexivity.
Defined.

(** C10. In [upsertPosts] a record that lacks one of [msgBiz], [msgMid],
    [msgIdx] gets [null] at its place in the result and no request is sent
    for it: the requests are those of the other records, in order, and
    what is stored under the identity of the record is not touched; such a
    record alone, not in an array, gives [null] and leaves the world as
    it is; and a falsy argument gives [undefined] and leaves the world as
    it is. *)
Theorem upsertPosts_skips_unidentified
    (w : World) (records : list Doc) (post : Doc) :
  identified post = false ->
  upsertPosts Falsy w = (Resolved Undefined, w)
  /\ upsertPosts (One post) w = (Resolved (Single None), w)
  /\ exists o w',
       upsertPosts (Many records) w = (o, w')
       /\ trace w' = trace w
            ++ (upsert_request <$> filter (fun p => identified p = true) records)
       /\ posts w' !! doc_key post = posts w !! doc_key post
       /\ (forall res, o = Resolved (Array res) ->
             length res = length records
             /\ forall i, records !! i = Some post -> res !! i = Some None)
       /\ (reliable w -> exists res, o = Resolved (Array res)).
Proof.
  intros Hid. split; [done|]. split.
  - unfold upsertPosts, bind, ret. cbn [fmap list_fmap Promise_all].
    by rewrite upsert_one_run, Hid.
  - destruct (upsert_all_run records w)
      as (o & w' & Hrun & Ht & _ & _ & _ & Hk & Hres & Hok).
    rewrite upsertPosts_many_run, Hrun.
    exists (match o with
            | Resolved res => Resolved (Array res)
            | Rejected => Rejected
            | Pending => Pending
            end), w'.
    split; [by destruct o|]. split; [done|]. split; [|split].
    + apply Hk. intros Hin.
      apply list_elem_of_fmap in Hin as (p & Hkey & Hp).
      apply list_elem_of_filter in Hp as [Hp _].
      apply identified_doc_key in Hkey. congruence.
    + intros res Ho. destruct o as [res'| |]; simplify_eq.
      specialize (Hres res eq_refl).
      split; [symmetry; by eapply Forall2_length|].
      intros i Hi.
      destruct (Forall2_lookup_l _ _ _ _ _ Hres Hi) as (r & Hr & Hup).
      unfold upserted in Hup. rewrite Hid in Hup. by subst r.
    + intros Hrel. destruct (Hok Hrel) as [res ->]. eauto.
Qed.

Lemma upsertPosts_skips_unidentified_witness :
  let A : Doc := {[ "msgBiz" := VStr (js "A"); "msgMid" := VStr (js "1");
                    "msgIdx" := VStr (js "1"); "x" := VNum 1 ]} in
  let N : Doc := {[ "msgBiz" := VStr (js "B"); "msgMid" := VStr [];
                    "y" := VNum 2 ]} in
  upsertPosts Falsy empty_world = (Resolved Undefined, empty_world)
  /\ upsertPosts (One N) empty_world = (Resolved (Single None), empty_world)
  /\ exists o w',
       upsertPosts (Many [N; A; N]) empty_world = (o, w')
       /\ trace w' = trace empty_world
            ++ (upsert_request <$> filter (fun p => identified p = true) [N; A; N])
       /\ posts w' !! doc_key N = posts empty_world !! doc_key N
       /\ (forall res, o = Resolved (Array res) ->
             length res = 3%nat
             /\ forall i, [N; A; N] !! i = Some N -> res !! i = Some None)
       /\ (reliable empty_world -> exists res, o = Resolved (Array res)).
Proof.
  intros A N.
  apply (upsertPosts_skips_unidentified empty_world [N; A; N] N).
  vm_compute. reflexivity.
Defined.

(** ** [getPostDetail] *)

Lemma save_basic_info_run key link x doc w :
  save_basic_info key link x doc w
  = if has_all ["title"; "link"; "wechatId"] doc then (Resolved tt, w)
    else
      let upd := basic_updateObj key link x in
      let w1 := logged (PostFindOneAndUpdate key upd) w in
      if fault w (length (trace w)) then (Rejected, w1)
      else (Resolved tt,
            set_post key (upd ∪ default (key_doc key) (posts w !! key)) w1).
Proof.
  unfold save_basic_info, bind, ret.
  destruct (has_all _ doc); [done|]. cbn [negb].
  rewrite post_findOneAndUpdate_run. cbv zeta.
  by destruct (fault w (length (trace w))).
Qed.

Lemma save_profile_info_run biz x profile w :
  save_profile_info biz x profile w
  = if has_all ["wechatId"; "username"; "headimg"] profile then (Resolved tt, w)
    else
      let upd := profile_updateObj biz x in
      let w1 := logged (ProfileFindOneAndUpdate biz upd) w in
      if fault w (length (trace w)) then (Rejected, w1)
      else (Resolved tt,
            set_profile biz (upd ∪ default {[ "msgBiz" := biz ]} (profiles w !! biz)) w1).
Proof.
  unfold save_profile_info, bind, ret.
  destruct (has_all _ profile); [done|]. cbn [negb].
  rewrite profile_findOneAndUpdate_run. cbv zeta.
  by destruct (fault w (length (trace w))).
Qed.

Lemma save_content_run deps key doc body w :
  save_content deps key doc body w
  = if isSavePostContent deps && shouldSaveToDb deps doc
       && truthy (content_html deps body)
    then
      let upd := content_updateObj key (content_html deps body) in
      let w1 := logged (PostFindOneAndUpdate key upd) w in
      if fault w (length (trace w)) then (Rejected, w1)
      else (Resolved tt,
            set_post key (upd ∪ default (key_doc key) (posts w !! key)) w1)
    else (Resolved tt, w).
Proof.
  unfold save_content, bind, ret.
  destruct (isSavePostContent deps); [|done].
  destruct (shouldSaveToDb deps doc); [|done].
  destruct (truthy (content_html deps body)); [|done]. cbn [andb].
  rewrite post_findOneAndUpdate_run. cbv zeta.
  by destruct (fault w (length (trace w))).
Qed.

(** The flag of lines 229-237 is [true] whatever the record holds. *)
Lemma shouldSaveToDb_true deps doc : shouldSaveToDb deps doc = true.
Proof.
  unfold shouldSaveToDb. destruct doc as [d|]; [|done].
  by repeat case_match.
Qed.

(** The page was found invalid: lines 150-157. *)
Lemma getPostDetail_invalidated deps link body key page w :
  link <> [] ->
  getIdentifying deps link body = Resolved key ->
  resolved_key key = true ->
  getBody deps link body = Resolved page ->
  invalidated page = true ->
  getPostDetail deps link body w
  = match models.Post.findOneAndUpdate key {[ "isFail" := VBool true ]} w with
    | (Resolved _, w') => (Resolved tt, w')
    | (Rejected, w') => (Rejected, w')
    | (Pending, w') => (Pending, w')
    end.
Proof.
  intros Hlink Hid Hkey Hbody Hinv. unfold getPostDetail, bind, lift, ret.
  destruct link as [|c link]; [done|]. cbn [truthy negb].
  rewrite Hid. destruct key as [[msgBiz msgMid] msgIdx].
  unfold resolved_key in Hkey. cbn in Hkey.
  apply andb_true_iff in Hkey as [Hkey H3].
  apply andb_true_iff in Hkey as [H1 H2].
  rewrite H1, H2, H3. cbn [negb orb]. rewrite Hbody, Hinv.
  by destruct (models.Post.findOneAndUpdate _ _ w) as [[]].
Qed.

Lemma set_if_truthy_lookup_ne (f g : string) (v : Value) (d : Doc) :
  f <> g -> set_if_truthy f v d !! g = d !! g.
Proof.
  intros Hne. unfold set_if_truthy.
  destruct (truthy v); [by rewrite lookup_insert_ne|done].
Qed.

Lemma content_updateObj_lookup (key : PostKey) (html : Value) (f : string) :
  f ∉ ["imported"; "viewed"; "html"; "msgBiz"; "msgMid"; "msgIdx"] ->
  content_updateObj key html !! f = None.
Proof.
  intros Hf. unfold content_updateObj, key_doc.
  repeat (apply not_elem_of_cons in Hf as [? Hf]).
  rewrite !lookup_insert_ne by done.
  rewrite set_if_truthy_lookup_ne by done.
  rewrite !lookup_insert_ne by done. by apply lookup_singleton_ne.
Qed.

Lemma get_union_None (f : string) (upd d : Doc) :
  upd !! f = None -> get f (upd ∪ d) = get f d.
Proof. intros H. unfold get. by rewrite lookup_union_r. Qed.

Lemma getPostDetail_main deps link body key page w :
  link <> [] ->
  getIdentifying deps link body = Resolved key ->
  resolved_key key = true ->
  getBody deps link body = Resolved page ->
  invalidated page = false ->
  getPostDetail deps link body w
  = (doc <- models.Post.findOne key ;;
     _ <- save_basic_info key link (extract page) doc ;;
     profile <- models.Profile.findOne key.1.1 ;;
     _ <- save_profile_info key.1.1 (extract page) profile ;;
     save_content deps key doc page) w.
Proof.
  intros Hlink Hid Hkey Hbody Hinv. unfold getPostDetail, bind at 1 2, lift, ret.
  destruct link as [|c link]; [done|]. cbn [truthy negb].
  rewrite Hid. destruct key as [[msgBiz msgMid] msgIdx].
  unfold resolved_key in Hkey. cbn in Hkey.
  apply andb_true_iff in Hkey as [Hkey H3].
  apply andb_true_iff in Hkey as [H1 H2].
  rewrite H1, H2, H3. cbn [negb orb]. rewrite Hbody, Hinv. done.
Qed.

Lemma getPostDetail_aborts deps link body w :
  link = []
  \/ (forall key, getIdentifying deps link body = Resolved key -> resolved_key key = false)
  \/ (forall page, getBody deps link body <> Resolved page) ->
  (getPostDetail deps link body w).2 = w.
Proof.
  intros H. unfold getPostDetail, bind, lift, ret.
  destruct link as [|c link]; [done|]. cbn [truthy negb].
  destruct H as [H|[H|H]]; [done| |].
  - destruct (getIdentifying deps (c :: link) body) as [[[b m] i]| |]; try done.
    specialize (H _ eq_refl). unfold resolved_key in H. cbn in H.
    destruct (truthy b), (truthy m), (truthy i); try done.
  - destruct (getIdentifying deps (c :: link) body) as [[[b m] i]| |]; try done.
    destruct (negb (truthy b) || negb (truthy m) || negb (truthy i)); [done|].
    destruct (getBody deps (c :: link) body) as [page| |]; try done.
    by destruct (H page).
Qed.

(** C4. When the page fetched for an article whose identity was resolved
    holds an invalidation marker, [getPostDetail] sends one request and no
    other: the update of that article with [isFail: true].  No profile and
    no other article is touched; when the store takes the request the call
    resolves and the article is stored with [isFail] true and every other
    field as it was (those of its identity when it is new). *)
Theorem invalidated_page_only_sets_isFail
    (deps : Deps) (link : jsstring) (body : option jsstring)
    (key : PostKey) (page : jsstring) (w : World) :
  link <> [] ->
  getIdentifying deps link body = Resolved key ->
  resolved_key key = true ->
  getBody deps link body = Resolved page ->
  invalidated page = true ->
  exists o w',
    getPostDetail deps link body w = (o, w')
    /\ trace w' = trace w ++ [PostFindOneAndUpdate key {[ "isFail" := VBool true ]}]
    /\ profiles w' = profiles w
    /\ pubRecords w' = pubRecords w
    /\ (forall k, k <> key -> posts w' !! k = posts w !! k)
    /\ (fault w (length (trace w)) = false ->
        o = Resolved tt
        /\ exists d,
             posts w' !! key = Some d
             /\ get "isFail" d = VBool true
             /\ forall f, f <> "isFail" ->
                  d !! f = default (key_doc key) (posts w !! key) !! f).
Proof.
  intros Hlink Hid Hkey Hbody Hinv.
  rewrite (getPostDetail_invalidated _ _ _ _ _ _ Hlink Hid Hkey Hbody Hinv).
  rewrite post_findOneAndUpdate_run. cbv zeta.
  destruct (fault w (length (trace w))) eqn:Hf.
  - eexists _, _. split; [reflexivity|]. repeat split; try done.
  - eexists _, _. split; [reflexivity|]. cbn.
    split; [done|]. split; [done|]. split; [done|]. split.
    + intros k Hk. by rewrite lookup_insert_ne.
    + intros _. split; [done|]. eexists. split; [apply lookup_insert_eq|].
      split.
      * unfold get. by erewrite lookup_union_Some_l by apply lookup_singleton_eq.
      * intros f Hf'. apply lookup_union_r. by apply lookup_singleton_ne.
Qed.

Lemma content_update_keeps_basic key html doc :
  same_basic_fields doc (content_updateObj key html ∪ doc).
Proof.
  repeat split; apply get_union_None, content_updateObj_lookup;
    rewrite !not_elem_of_cons; repeat split; try done; apply not_elem_of_nil.
Qed.

Lemma content_update_not_basic key html :
  writes_basic_field (PostFindOneAndUpdate key (content_updateObj key html)) = false.
Proof.
  unfold writes_basic_field, sets_post_field.
  rewrite !content_updateObj_lookup; [done|..];
    rewrite !not_elem_of_cons; repeat split; try done; apply not_elem_of_nil.
Qed.

Ltac run_step :=
  first [ rewrite post_findOne_run | rewrite profile_findOne_run
        | rewrite save_basic_info_run | rewrite save_profile_info_run
        | rewrite save_content_run ];
  cbv zeta; cbn [posts profiles pubRecords trace fault logged set_post set_profile].

Ltac branch :=
  match goal with
  | |- context [if ?b then _ else _] => let E := fresh "E" in destruct b eqn:E
  end.

Ltac trace_suffix :=
  cbn [trace logged set_post set_profile];
  rewrite <- ?app_assoc; try reflexivity; symmetry; apply app_nil_r.

(** C3. Whatever else [getPostDetail] does for an article whose identity
    was resolved: when the stored article has its title, link and
    [wechatId], no request of the call writes one of these three fields
    and the stored article still reads the same for them afterwards; and
    when the stored profile of the publisher has its [wechatId],
    [username] and [headimg], the call sends no profile update and the
    profiles are as they were. *)
Theorem complete_records_are_left_alone
    (deps : Deps) (link : jsstring) (body : option jsstring)
    (key : PostKey) (w : World) :
  getIdentifying deps link body = Resolved key ->
  exists o w' ops,
    getPostDetail deps link body w = (o, w')
    /\ trace w' = trace w ++ ops
    /\ (forall doc,
          posts w !! key = Some doc ->
          has_all ["title"; "link"; "wechatId"] (Some doc) = true ->
          Forall (fun op => writes_basic_field op = false) ops
          /\ exists doc', posts w' !! key = Some doc' /\ same_basic_fields doc doc')
    /\ (forall profile,
          profiles w !! key.1.1 = Some profile ->
          has_all ["wechatId"; "username"; "headimg"] (Some profile) = true ->
          Forall (fun op => is_profile_update op = false) ops
          /\ profiles w' = profiles w).
Proof.
  intros Hid.
  destruct (decide (link = [])) as [->|Hlink].
  { exists (Resolved tt), w, []. split; [done|]. split; [by rewrite app_nil_r|].
    split; intros d Hd Hall; (split; [constructor|]); [|done].
    exists d. by repeat split. }
  destruct (resolved_key key) eqn:Hkey; cycle 1.
  { destruct (getPostDetail deps link body w) as [o w'] eqn:Hrun.
    assert (w' = w) as ->.
    { change w' with (o, w').2. rewrite <- Hrun. apply getPostDetail_aborts.
      right; left. intros k. rewrite Hid. by intros [= <-]. }
    exists o, w, []. split; [done|]. split; [by rewrite app_nil_r|].
    split; intros d Hd Hall; (split; [constructor|]); [|done].
    exists d. by repeat split. }
  destruct (getBody deps link body) as [page| |] eqn:Hbody; cycle 1.
  1,2: destruct (getPostDetail deps link body w) as [o w'] eqn:Hrun;
    assert (w' = w) as ->
      by (change w' with (o, w').2; rewrite <- Hrun; apply getPostDetail_aborts;
          right; right; intros p; by rewrite Hbody);
    exists o, w, []; (split; [done|]); (split; [by rewrite app_nil_r|]);
    split; intros d Hd Hall; (split; [constructor|]); [|done];
    exists d; by repeat split.
  destruct (invalidated page) eqn:Hinv.
  { rewrite (getPostDetail_invalidated _ _ _ _ _ _ Hlink Hid Hkey Hbody Hinv).
    rewrite post_findOneAndUpdate_run. cbv zeta.
    destruct (fault w (length (trace w)));
      (eexists _, _, [PostFindOneAndUpdate key {[ "isFail" := VBool true ]}];
       split; [reflexivity|]; split; [done|]; split).
    all: intros d Hd Hall; (split; [by repeat constructor|]); try done.
    - exists d. by repeat split.
    - cbn. rewrite lookup_insert_eq, Hd. eexists. split; [done|].
      repeat split; by apply get_union_None. }
  rewrite (getPostDetail_main _ _ _ _ _ _ Hlink Hid Hkey Hbody Hinv).
  unfold bind. repeat (run_step || branch);
    (eexists _, _, _; split; [reflexivity|]; split; [trace_suffix|]; split).
  all: intros d Hd Hall; cbn [posts profiles set_post set_profile logged];
    rewrite ?Hd in *; try congruence.
  all: split; [repeat constructor; try done; apply content_update_not_basic|].
  all: try done.
  all: rewrite ?lookup_insert_eq; eexists; (split; [done|]).
  all: try (by repeat split).
  all: apply content_update_keeps_basic.
Qed.

Lemma invalidated_page_only_sets_isFail_witness :
  let deps := example_deps true (js "html") in
  let w := example_world in
  exists o w',
    getPostDetail deps example_link (Some gone_page) w = (o, w')
    /\ trace w' = trace w ++ [PostFindOneAndUpdate example_key {[ "isFail" := VBool true ]}]
    /\ profiles w' = profiles w
    /\ pubRecords w' = pubRecords w
    /\ (forall k, k <> example_key -> posts w' !! k = posts w !! k)
    /\ (fault w (length (trace w)) = false ->
        o = Resolved tt
        /\ exists d,
             posts w' !! example_key = Some d
             /\ get "isFail" d = VBool true
             /\ forall f, f <> "isFail" ->
                  d !! f = default (key_doc example_key) (posts w !! example_key) !! f).
Proof.
  intros deps w.
  apply (invalidated_page_only_sets_isFail deps example_link (Some gone_page)
           example_key gone_page w).
  - discriminate.
  - vm_compute. reflexivity.
  - vm_compute. reflexivity.
  - reflexivity.
  - vm_compute. reflexivity.
Defined.

Lemma complete_records_are_left_alone_witness :
  let deps := example_deps true (js "html") in
  let w := example_world in
  exists o w' ops,
    getPostDetail deps example_link (Some example_page) w = (o, w')
    /\ trace w' = trace w ++ ops
    /\ (Forall (fun op => writes_basic_field op = false) ops
        /\ exists doc', posts w' !! example_key = Some doc'
                        /\ same_basic_fields complete_article doc')
    /\ (Forall (fun op => is_profile_update op = false) ops
        /\ profiles w' = profiles w).
Proof.
  intros deps w.
  destruct (complete_records_are_left_alone deps example_link (Some example_page)
              example_key w) as (o & w' & ops & Hrun & Ht & Hpost & Hprofile).
  - vm_compute. reflexivity.
  - exists o, w', ops. split; [exact Hrun|]. split; [exact Ht|]. split.
    + apply (Hpost complete_article); reflexivity.
    + apply (Hprofile complete_profile); reflexivity.
Defined.

(** The flag of lines 229-237 does not depend on the stored article. *)
Lemma save_content_whatever_stored deps key doc body :
  save_content deps key doc body = save_content deps key None body.
Proof. unfold save_content. by rewrite !shouldSaveToDb_true. Qed.

(** C5, on the code: with [isSavePostContent] on and [saveContentType]
    ['html'], an article that is stored with an [html] body is sent its body
    again.  The requests of the call end with the update that sets [html]
    to the content of the page, and the stored body is replaced. *)
Theorem stored_content_is_written_again :
  let deps := example_deps true (js "html") in
  let r := getPostDetail deps example_link (Some example_page) example_world in
  get "html" complete_article = VStr (js "<p>old</p>")
  /\ r.1 = Resolved tt
  /\ trace r.2
     = [ PostFindOne example_key; ProfileFindOne (VStr (js "Bz1"));
         PostFindOneAndUpdate example_key
           (content_updateObj example_key (VStr (js "<p>new</p>"))) ]
  /\ (get "html" <$> posts r.2 !! example_key) = Some (VStr (js "<p>new</p>")).
Proof. vm_compute. repeat split; reflexivity. Qed.

(** ** [savePostsData] *)

Lemma doc_key_key_doc_eq (k : PostKey) : doc_key (key_doc k) = k.
Proof.
  destruct k as [[b m] i]. unfold doc_key, key_doc, get. cbn.
  rewrite lookup_insert_eq.
  rewrite lookup_insert_ne, lookup_insert_eq by done.
  rewrite !lookup_insert_ne by done. rewrite lookup_singleton_eq. done.
Qed.

Lemma doc_key_union (upd d : Doc) :
  upd !! "msgBiz" = None -> upd !! "msgMid" = None -> upd !! "msgIdx" = None ->
  doc_key (upd ∪ d) = doc_key d.
Proof. intros. unfold doc_key. by rewrite !get_union_None. Qed.

Lemma store_ok_default (w : World) (k : PostKey) :
  store_ok w -> doc_key (default (key_doc k) (posts w !! k)) = k.
Proof.
  intros Hok. destruct (posts w !! k) as [d|] eqn:E; cbn.
  - by apply Hok.
  - apply doc_key_key_doc_eq.
Qed.

Lemma store_ok_set_post (w : World) (k : PostKey) (d : Doc) :
  store_ok w -> doc_key d = k -> store_ok (set_post k d w).
Proof.
  intros Hok Hd k' d'. cbn. destruct (decide (k = k')) as [<-|Hne].
  - rewrite lookup_insert_eq. by intros [= <-].
  - rewrite lookup_insert_ne by done. apply Hok.
Qed.

Lemma save_unit_run deps (u : Unit) (w : World) :
  save_unit deps u w
  = match unit_link u with
    | Some l =>
        match models.Post.findOneAndUpdate (unit_key deps l)
                (unit_update deps u l) w with
        | (Resolved d, w') => (Resolved (Some d), w')
        | (Rejected, w') => (Rejected, w')
        | (Pending, w') => (Pending, w')
        end
    | None => (Resolved None, w)
    end.
Proof.
  unfold save_unit, unit_link, unit_update. destruct u as [a p].
  cbn [appMsg publishAt].
  destruct (title a) as [t|]; [|done]. destruct (content_url a) as [l|]; [|done].
  destruct (truthy (VStr t) && truthy (VStr l)); [|done]. cbn [negb default].
  unfold bind, ret, unit_key, link_key.
  by destruct (models.Post.findOneAndUpdate _ _ w) as [[]].
Qed.

Lemma unit_update_no_identity deps u l (d : Doc) :
  doc_key (unit_update deps u l ∪ d) = doc_key d.
Proof.
  apply doc_key_union; unfold unit_update;
    rewrite !lookup_insert_ne by done; by apply lookup_singleton_ne.
Qed.

(** What the joined callbacks of line 83 do. *)
Lemma save_all_run deps (units : list Unit) (w : World) :
  exists o w',
    Promise_all (save_unit deps <$> units) w = (o, w')
    /\ trace w' = trace w ++ omap (unit_request deps) units
    /\ fault w' = fault w
    /\ profiles w' = profiles w
    /\ pubRecords w' = pubRecords w
    /\ (store_ok w -> store_ok w')
    /\ (forall res, o = Resolved res -> store_ok w ->
          doc_key <$> omap id res = unit_key deps <$> omap unit_link units)
    /\ (reliable w -> exists res, o = Resolved res).
Proof.
  revert w. induction units as [|u units IH]; intros w.
  - exists (Resolved []), w. cbn. rewrite app_nil_r.
    repeat split; eauto. by intros res [= <-].
  - rewrite fmap_cons. cbn [Promise_all]. rewrite save_unit_run.
    cbn [omap list_omap]. unfold unit_request at 1.
    destruct (unit_link u) as [l|] eqn:Hl; cbn [mbind option_bind].
    + rewrite post_findOneAndUpdate_run. cbv zeta.
      set (op := PostFindOneAndUpdate _ _).
      set (d := _ ∪ _).
      assert (Hd : store_ok w -> doc_key d = unit_key deps l).
      { intros Hok. unfold d. rewrite unit_update_no_identity.
        by apply store_ok_default. }
      destruct (fault w (length (trace w))) eqn:Hf.
      * destruct (IH (logged op w))
          as (o & w' & -> & Ht & Hfa & Hp & Hr & Hok & Hres & Hrel).
        exists Rejected, w'. split; [by destruct o|].
        rewrite Ht, Hfa, Hp, Hr. cbn. rewrite <- app_assoc.
        repeat split; try done.
        intros Hrel'. by rewrite Hrel' in Hf.
      * destruct (IH (set_post (unit_key deps l) d (logged op w)))
          as (o & w' & -> & Ht & Hfa & Hp & Hr & Hok & Hres & Hrel).
        exists (match o with Resolved res => Resolved (Some d :: res)
                        | Rejected => Rejected | Pending => Pending end), w'.
        split; [by destruct o|].
        rewrite Ht, Hfa, Hp, Hr. cbn. rewrite <- app_assoc.
        repeat split; try done.
        -- intros Hw. apply Hok. apply store_ok_set_post; [done|by apply Hd].
        -- intros res Ho Hw. destruct o as [res'| |]; simplify_eq. cbn.
           rewrite Hd by done. f_equal. apply Hres; [done|].
           apply store_ok_set_post; [done|by apply Hd].
        -- intros Hrel'. destruct Hrel as [res ->]; [done|]. eauto.
    + destruct (IH w) as (o & w' & -> & Ht & Hfa & Hp & Hr & Hok & Hres & Hrel).
      exists (match o with Resolved res => Resolved (None :: res)
                      | Rejected => Rejected | Pending => Pending end), w'.
      split; [by destruct o|].
      repeat split; try done.
      * intros res Ho Hw. destruct o as [res'| |]; simplify_eq. cbn.
        by apply Hres.
      * intros Hrel'. destruct Hrel as [res ->]; [done|]. eauto.
Qed.

(** The lookup of line 110, on the handler made at line 81: one query. *)
Lemma find_on_new_handler (biz : Value) (w : World) :
  (profile <- FindProfileHandler.find biz
                (FindProfileHandler.start FindProfileHandler.new) ;;
   ret tt) w
  = request (ProfileFindOne biz) w.
Proof.
  unfold bind, ret, FindProfileHandler.find, FindProfileHandler.find_call.
  cbn. rewrite !lookup_empty. cbn.
  unfold FindProfileHandler.query_resolves. cbn. rewrite lookup_insert_eq.
  rewrite profile_findOne_run. cbv zeta. unfold request.
  by destruct (fault w (length (trace w))).
Qed.

Lemma savePostsData_run deps (batch : list ListingEntry) (w : World) :
  savePostsData deps batch w
  = match Promise_all (save_unit deps <$> extract_units batch) w with
    | (Resolved res, w1) =>
        match omap id res with
        | p :: _ =>
            match request (ProfileFindOne (get "msgBiz" p)) w1 with
            | (Resolved _, w2) => record_and_return deps (omap id res) w2
            | (Rejected, w2) => (Rejected, w2)
            | (Pending, w2) => (Pending, w2)
            end
        | [] => record_and_return deps (omap id res) w1
        end
    | (Rejected, w1) => (Rejected, w1)
    | (Pending, w1) => (Pending, w1)
    end.
Proof.
  unfold savePostsData. unfold bind at 1.
  destruct (Promise_all _ w) as [[res| |] w1]; [|done..].
  unfold bind at 1. destruct (omap id res) as [|p saved] eqn:E.
  - done.
  - rewrite find_on_new_handler.
    by destruct (request _ w1) as [[]].
Qed.

Lemma record_and_return_run deps (saved : list Doc) (w : World) :
  record_and_return deps saved w
  = let w1 := logged (SavePubRecords saved) w in
    if fault w (length (trace w)) then (Rejected, w1)
    else
      let w2 := logged (RedisLlen (PROFILE_LIST_KEY deps)) (add_pubRecords saved w1) in
      if fault w (length (trace w ++ [SavePubRecords saved])) then (Rejected, w2)
      else (Resolved saved, w2).
Proof.
  unfold record_and_return, models.ProfilePubRecord.savePubRecords, redis_llen,
    bind, request, write, ret. cbn.
  destruct (fault w (length (trace w))); [done|]. cbn.
  by destruct (fault w _).
Qed.

(** C6, as the code has it.  From a store in which every article has the
    identity it is stored under, the identities of the list that
    [savePostsData] returns are, in order, the triples ([__biz], [mid],
    [idx]) read off the unescaped links of the units that have a title and
    a link, one per unit; so they are pairwise different exactly when these
    triples are.  The list is returned when the store takes every request.  And the
    link [https://host/s?__biz=Bz1&mid=Mid1&idx=2] gives the triple
    ([Bz1], [Mid1], [2]). *)
Theorem saved_identities_are_those_of_the_links
    (deps : Deps) (batch : list ListingEntry) (w : World) :
  store_ok w ->
  (exists o w',
     savePostsData deps batch w = (o, w')
     /\ (forall saved, o = Resolved saved ->
           doc_key <$> saved
           = unit_key deps <$> omap unit_link (extract_units batch)
           /\ (NoDup (doc_key <$> saved)
               <-> NoDup (unit_key deps <$> omap unit_link (extract_units batch))))
     /\ (reliable w -> exists saved, o = Resolved saved))
  /\ unit_key (example_deps true (js "html"))
       (js "https://host/s?__biz=Bz1&mid=Mid1&idx=2")
     = (VStr (js "Bz1"), VStr (js "Mid1"), VStr (js "2")).
Proof.
  intros Hok. split; [|vm_compute; reflexivity].
  rewrite savePostsData_run.
  destruct (save_all_run deps (extract_units batch) w)
    as (o & w1 & -> & Ht & Hfa & _ & _ & _ & Hres & Hrel).
  destruct o as [res| |]; cycle 1.
  { exists Rejected, w1. split; [done|]. split; [done|].
    intros Hw. by destruct (Hrel Hw). }
  { exists Pending, w1. split; [done|]. split; [done|].
    intros Hw. by destruct (Hrel Hw). }
  specialize (Hres res eq_refl Hok). clear Hrel.
  assert (Hfin : forall w2, fault w2 = fault w ->
            exists o w',
              record_and_return deps (omap id res) w2 = (o, w')
              /\ (forall saved, o = Resolved saved -> saved = omap id res)
              /\ (reliable w -> exists saved, o = Resolved saved)).
  { intros w2 Hf2. rewrite record_and_return_run. cbv zeta. rewrite !Hf2.
    destruct (fault w (length (trace w2))) eqn:E1.
    - eexists _, _. split; [done|]. split; [done|].
      intros Hw. by rewrite Hw in E1.
    - destruct (fault w (length (trace w2 ++ _))) eqn:E2.
      + eexists _, _. split; [done|]. split; [done|].
        intros Hw. by rewrite Hw in E2.
      + eexists _, _. split; [done|]. split; [by intros ? [= <-]|]. eauto. }
  assert (Hgoal : forall o : Outcome (list Doc),
            (forall saved, o = Resolved saved -> saved = omap id res) ->
            forall saved, o = Resolved saved ->
              doc_key <$> saved
              = unit_key deps <$> omap unit_link (extract_units batch)
              /\ (NoDup (doc_key <$> saved)
                  <-> NoDup (unit_key deps <$> omap unit_link (extract_units batch)))).
  { intros o Ho saved Hs. rewrite (Ho saved Hs), Hres. done. }
  destruct (omap id res) as [|p saved] eqn:E.
  - destruct (Hfin w1 Hfa) as (o & w' & Hrun & Ho & Hr).
    exists o, w'. split; [done|]. split; [by eapply Hgoal|done].
  - unfold request. rewrite Hfa.
    destruct (fault w (length (trace w1))) eqn:E1.
    + eexists _, _. split; [done|]. split; [done|].
      intros Hw. by rewrite Hw in E1.
    + destruct (Hfin (logged (ProfileFindOne (get "msgBiz" p)) w1) Hfa)
        as (o & w' & Hrun & Ho & Hr).
      exists o, w'. split; [done|]. split; [by eapply Hgoal|done].
Qed.

Lemma saved_identities_are_those_of_the_links_witness :
  let deps := example_deps true (js "html") in
  let batch := [ example_entry "a" "http://h/s?__biz=B&amp;mid=M&amp;idx=1";
                 example_entry "b" "http://h/s?__biz=B&amp;mid=M&amp;idx=2" ] in
  (exists o w',
     savePostsData deps batch empty_world = (o, w')
     /\ (forall saved, o = Resolved saved ->
           doc_key <$> saved
           = unit_key deps <$> omap unit_link (extract_units batch)
           /\ (NoDup (doc_key <$> saved)
               <-> NoDup (unit_key deps <$> omap unit_link (extract_units batch))))
     /\ (reliable empty_world -> exists saved, o = Resolved saved))
  /\ unit_key (example_deps true (js "html"))
       (js "https://host/s?__biz=Bz1&mid=Mid1&idx=2")
     = (VStr (js "Bz1"), VStr (js "Mid1"), VStr (js "2")).
Proof.
  intros deps batch.
  apply (saved_identities_are_those_of_the_links deps batch empty_world).
  intros k d Hd. cbn in Hd. by rewrite lookup_empty in Hd.
Defined.

(** C6, as the specification has it, fails: a batch in which two entries
    carry the same link gives a list with the same identity twice. *)
Lemma saved_identities_can_repeat :
  let deps := example_deps true (js "html") in
  let batch := [ example_entry "a" "http://h/s?__biz=B&amp;mid=M&amp;idx=1";
                 example_entry "a" "http://h/s?__biz=B&amp;mid=M&amp;idx=1" ] in
  let key := (VStr (js "B"), VStr (js "M"), VStr (js "1")) in
  (fmap (M := list) doc_key <$> value_of (savePostsData deps batch empty_world).1)
  = Some [key; key]
  /\ ~ NoDup [key; key].
Proof.
  intros deps batch key. split; [vm_compute; reflexivity|].
  intros H. apply NoDup_cons in H as [H _]. apply H. left.
Qed.

(** *** The profiles do not matter to the batch *)

Lemma profile_blind_ret {A} (a : A) : profile_blind (ret a).
Proof. done. Qed.

Lemma profile_blind_bind {A B} (m : M A) (k : A -> M B) :
  profile_blind m -> (forall a, profile_blind (k a)) -> profile_blind (bind m k).
Proof.
  intros Hm Hk p w. unfold bind. rewrite Hm.
  destruct (m w) as [[a| |] w']; cbn; [apply Hk|done..].
Qed.

Lemma profile_blind_request (op : StoreOp) : profile_blind (request op).
Proof.
  intros p w. unfold request. cbn.
  by destruct (fault w (length (trace w))).
Qed.

Lemma profile_blind_post_findOneAndUpdate k upd :
  profile_blind (models.Post.findOneAndUpdate k upd).
Proof.
  intros p w. rewrite !post_findOneAndUpdate_run. cbn.
  by destruct (fault w (length (trace w))).
Qed.

Lemma profile_blind_save_unit deps u : profile_blind (save_unit deps u).
Proof.
  intros p w. rewrite !save_unit_run. destruct (unit_link u) as [l|]; [|done].
  rewrite profile_blind_post_findOneAndUpdate.
  by destruct (models.Post.findOneAndUpdate _ _ w) as [[]].
Qed.

Lemma profile_blind_Promise_all {A} (ms : list (M A)) :
  Forall profile_blind ms -> profile_blind (Promise_all ms).
Proof.
  induction 1 as [|m ms Hm Hms IH]; intros p w; [done|].
  cbn [Promise_all]. rewrite Hm.
  destruct (m w) as [o w1]. cbn [fst snd]. rewrite IH.
  by destruct (Promise_all ms w1) as [os w2].
Qed.

Lemma profile_blind_record_and_return deps saved :
  profile_blind (record_and_return deps saved).
Proof.
  intros p w. rewrite !record_and_return_run. cbn.
  destruct (fault w (length (trace w))); [done|].
  by destruct (fault w _).
Qed.

Lemma profile_blind_savePostsData deps batch :
  profile_blind (savePostsData deps batch).
Proof.
  intros p w. rewrite !savePostsData_run.
  rewrite profile_blind_Promise_all
    by (apply Forall_fmap, Forall_true; intros u; apply profile_blind_save_unit).
  destruct (Promise_all _ w) as [[res| |] w1]; cbn [fst snd]; [|done..].
  destruct (omap id res) as [|post rest].
  - apply profile_blind_record_and_return.
  - rewrite profile_blind_request.
    destruct (request _ w1) as [[[]| |] w2]; cbn [fst snd]; [|done..].
    apply profile_blind_record_and_return.
Qed.

(** C9, as the code has it.  Take a batch of which at least one unit was
    saved.  What the lookup of line 110 finds does not matter, the profile
    only goes to the log: with any other profiles in the store,
    [savePostsData] ends the same way, with the same list, and changes
    the world the same way.  But the lookup is awaited: when the store
    rejects it, [savePostsData] is rejected, after the articles were
    saved and before the publish records are sent; when the store
    answers it, the call goes on to lines 116-127. *)
Theorem profile_lookup_only_feeds_the_log
    (deps : Deps) (batch : list ListingEntry) (w w1 : World)
    (res : list (option Doc)) (post : Doc) (rest : list Doc)
    (p : gmap Value Doc) :
  Promise_all (save_unit deps <$> extract_units batch) w = (Resolved res, w1) ->
  omap id res = post :: rest ->
  savePostsData deps batch (with_profiles p w)
  = ((savePostsData deps batch w).1,
     with_profiles p (savePostsData deps batch w).2)
  /\ (fault w1 (length (trace w1)) = true ->
      savePostsData deps batch w
      = (Rejected, logged (ProfileFindOne (get "msgBiz" post)) w1))
  /\ (fault w1 (length (trace w1)) = false ->
      savePostsData deps batch w
      = record_and_return deps (post :: rest)
          (logged (ProfileFindOne (get "msgBiz" post)) w1)).
Proof.
  intros Hall Hsaved. split; [apply profile_blind_savePostsData|].
  rewrite savePostsData_run, Hall, Hsaved. unfold request.
  split; intros ->; done.
Qed.

Lemma profile_lookup_only_feeds_the_log_witness :
  let deps := example_deps true (js "html") in
  let batch := [ example_entry "a" "http://h/s?__biz=Bz1&amp;mid=M&amp;idx=1" ] in
  let w := with_fault (fun i => bool_decide (i = 1%nat)) empty_world in
  let post : Doc :=
    unit_update deps {| appMsg := title_link_msg "a" "http://h/s?__biz=Bz1&amp;mid=M&amp;idx=1";
                        publishAt := VDate 1514736000000 |}
      (js "http://h/s?__biz=Bz1&amp;mid=M&amp;idx=1")
    ∪ key_doc (VStr (js "Bz1"), VStr (js "M"), VStr (js "1")) in
  let w1 := (Promise_all (save_unit deps <$> extract_units batch) w).2 in
  savePostsData deps batch (with_profiles (profiles example_world) w)
  = ((savePostsData deps batch w).1,
     with_profiles (profiles example_world) (savePostsData deps batch w).2)
  /\ (fault w1 (length (trace w1)) = true ->
      savePostsData deps batch w
      = (Rejected, logged (ProfileFindOne (get "msgBiz" post)) w1))
  /\ (fault w1 (length (trace w1)) = false ->
      savePostsData deps batch w
      = record_and_return deps (post :: [])
          (logged (ProfileFindOne (get "msgBiz" post)) w1)).
Proof.
  intros deps batch w post w1.
  apply (profile_lookup_only_feeds_the_log deps batch w w1 [Some post] post []
           (profiles example_world)); reflexivity.
Defined.

(** C9, as the specification has it, fails: the store rejects the profile
    lookup of a batch of one article, after it has saved the article, and
    [savePostsData] is rejected; the publish record is not sent.  With a
    store that answers, the same batch returns its article. *)
Lemma profile_lookup_failure_fails_the_batch :
  let deps := example_deps true (js "html") in
  let batch := [ example_entry "a" "http://h/s?__biz=Bz1&amp;mid=M&amp;idx=1" ] in
  let w := with_fault (fun i => bool_decide (i = 1%nat)) empty_world in
  let r := savePostsData deps batch w in
  r.1 = Rejected
  /\ size (posts r.2) = 1%nat
  /\ (trace r.2 !! 1%nat) = Some (ProfileFindOne (VStr (js "Bz1")))
  /\ length (trace r.2) = 2%nat
  /\ pubRecords r.2 = []
  /\ (length <$> value_of (savePostsData deps batch empty_world).1) = Some 1%nat.
Proof. vm_compute. repeat split; reflexivity. Qed.

(** ** [FindProfileHandler] *)

Module FindProfileHandlerProps.
Import FindProfileHandler.

(** The queries a run records are those its calls suspend on: a call adds
    one exactly when it leads its key. *)
Lemma find_call_queries (biz : Value) (s : Run) :
  queries (find_call biz s).1
  = queries s ++ match (find_call biz s).2 with
                 | Queries b => [b]
                 | _ => []
                 end
  /\ forall b, (find_call biz s).2 = Queries b -> b = biz.
Proof.
  unfold find_call.
  destruct (profileMap (this s) !! biz);
    [|destruct (profileWaitingMap (this s) !! biz)]; cbn;
    rewrite ?app_nil_r; split; try done.
  by intros b [= <-].
Qed.

Lemma invariant_start : invariant (start new).
Proof.
  split; cbn; intros.
  - rewrite !lookup_empty, elem_of_nil. split; [done|].
    by intros [[? [=]]|[? [=]]].
  - unfold times_queried. cbn. by rewrite decide_False by apply not_elem_of_nil.
  - apply lookup_empty.
  - done.
  - by rewrite lookup_empty in *.
  - by rewrite lookup_empty in *.
  - by rewrite lookup_empty in *.
  - by rewrite lookup_empty in *.
Qed.

Lemma trigger_lookup doc ws ret (m : nat) :
  trigger doc ws ret !! m = if decide (m ∈ ws) then Some doc else ret !! m.
Proof.
  unfold trigger. revert ret. induction ws as [|w ws IH]; intros ret; cbn.
  - by rewrite decide_False by apply not_elem_of_nil.
  - rewrite IH. destruct (decide (m ∈ ws)) as [Hin|Hin].
    + rewrite decide_True; [done|by right].
    + destruct (decide (m = w)) as [->|Hne].
      * rewrite decide_True by left. apply lookup_insert_eq.
      * rewrite decide_False by (by rewrite not_elem_of_cons).
        by rewrite lookup_insert_ne.
Qed.

Lemma lookup_snoc_Some {A} (l : list A) (x y : A) (i : nat) :
  (l ++ [x]) !! i = Some y
  <-> l !! i = Some y \/ (i = length l /\ x = y).
Proof.
  rewrite lookup_app_Some. split; intros [H|H]; eauto.
  - destruct H as [Hle H]. right.
    apply list_lookup_singleton_Some in H as [H ->]. split; [lia|done].
  - destruct H as [-> ->]. right. split; [done|].
    by rewrite Nat.sub_diag.
Qed.

Lemma awaiting_lt s me biz ref :
  invariant s -> awaiting s !! me = Some (biz, ref) -> (me < length (calls s))%nat.
Proof.
  intros Hinv H. apply (inv_awaiting _ Hinv) in H as [_ H].
  by apply lookup_lt_Some in H.
Qed.

Lemma calls_lt s me biz :
  calls s !! me = Some biz -> me <> length (calls s).
Proof. intros H%lookup_lt_Some. lia. Qed.

Lemma invariant_call_cached s biz doc :
  invariant s ->
  profileMap (this s) !! biz = Some doc ->
  invariant (find_call biz s).1.
Proof.
  intros Hinv Hpm. unfold find_call. rewrite Hpm. cbn.
  assert (Hbiz : biz ∈ calls s) by (apply (inv_known _ Hinv); eauto).
  split; cbn.
  - intros b. rewrite elem_of_app, list_elem_of_singleton, <- (inv_known _ Hinv).
    split; [intros [?| ->]; done|eauto].
  - intros b. unfold times_queried. cbn.
    pose proof (inv_queries _ Hinv b) as Hq. unfold times_queried in Hq.
    rewrite Hq. destruct (decide (b ∈ calls s)) as [Hb|Hb].
    + rewrite decide_True; [done|]. apply elem_of_app. by left.
    + rewrite decide_False; [done|].
      rewrite elem_of_app, list_elem_of_singleton. intros [?| ->]; done.
  - apply (inv_exclusive _ Hinv).
  - intros me b d Hc Hb. apply lookup_snoc_Some in Hc as [Hc|[-> <-]].
    + rewrite lookup_insert_ne by (symmetry; by eapply calls_lt).
      by eapply (inv_cached _ Hinv).
    + rewrite lookup_insert_eq. congruence.
  - intros me d Hr. destruct (decide (me = length (calls s))) as [->|Hne].
    + rewrite lookup_insert_eq in Hr. simplify_eq. exists biz.
      split; [|done]. apply lookup_snoc_Some. by right.
    + rewrite lookup_insert_ne in Hr by done.
      destruct (inv_returned _ Hinv _ _ Hr) as (b & Hc & Hb).
      exists b. split; [|done]. apply lookup_snoc_Some. by left.
  - intros b ref Hw.
    destruct (inv_waiting _ Hinv _ _ Hw)
      as (leader & ws & Ha & Hl & Hall & Hws & Haw & Hlead).
    exists leader, ws. split; [done|].
    split; [apply lookup_snoc_Some; by left|].
    split; [|split; [|done]].
    + intros me Hc. apply lookup_snoc_Some in Hc as [Hc|[-> <-]]; [by apply Hall|].
      rewrite (inv_exclusive _ Hinv biz) in Hw by eauto. done.
    + intros me Hme. apply lookup_snoc_Some. left. by apply Hws.
  - intros me b ref Ha. destruct (inv_awaiting _ Hinv _ _ _ Ha) as [Hw Hc].
    split; [done|]. apply lookup_snoc_Some. by left.
  - apply (inv_refs _ Hinv).
Qed.

Lemma invariant_call_leader s biz :
  invariant s ->
  profileMap (this s) !! biz = None ->
  profileWaitingMap (this s) !! biz = None ->
  invariant (find_call biz s).1.
Proof.
  intros Hinv Hpm Hwm. unfold find_call. rewrite Hpm, Hwm. cbn.
  set (ref := fresh (dom (arrays s))).
  assert (Hbiz : biz ∉ calls s).
  { rewrite (inv_known _ Hinv), Hpm, Hwm. by intros [[? [=]]|[? [=]]]. }
  assert (Hfresh : forall b r, profileWaitingMap (this s) !! b = Some r -> r <> ref).
  { intros b r Hb ->.
    destruct (inv_waiting _ Hinv _ _ Hb) as (? & ws & Ha & _).
    apply (is_fresh (dom (arrays s))). fold ref. apply elem_of_dom. eauto. }
  assert (Hnew : forall me, calls s !! me = Some biz -> False).
  { intros me Hc. apply Hbiz. by eapply list_elem_of_lookup_2. }
  split; cbn.
  - intros b. rewrite elem_of_app, list_elem_of_singleton, (inv_known _ Hinv).
    destruct (decide (b = biz)) as [->|Hne].
    + rewrite lookup_insert_eq. split; eauto.
    + rewrite lookup_insert_ne by done. split; [intros [?|?]; done|eauto].
  - intros b. unfold times_queried. cbn.
    rewrite filter_app, length_app, filter_cons, filter_nil.
    pose proof (inv_queries _ Hinv b) as Hq. unfold times_queried in Hq.
    rewrite Hq. destruct (decide (biz = b)) as [<-|Hne].
    + rewrite decide_False by done. rewrite decide_True; [done|].
      apply elem_of_app. right. by apply list_elem_of_singleton.
    + destruct (decide (b ∈ calls s)) as [Hb|Hb].
      * rewrite decide_True; [cbn; lia|]. apply elem_of_app. by left.
      * rewrite decide_False; [done|].
        rewrite elem_of_app, list_elem_of_singleton. intros [?|?]; done.
  - intros b Hb. destruct (decide (b = biz)) as [->|Hne].
    + rewrite Hpm in Hb. by destruct Hb.
    + rewrite lookup_insert_ne by done. by apply (inv_exclusive _ Hinv).
  - intros me b d Hc Hb. apply lookup_snoc_Some in Hc as [Hc|[-> <-]].
    + by eapply (inv_cached _ Hinv).
    + congruence.
  - intros me d Hr. destruct (inv_returned _ Hinv _ _ Hr) as (b & Hc & Hb).
    exists b. split; [|done]. apply lookup_snoc_Some. by left.
  - intros b r Hw. destruct (decide (b = biz)) as [->|Hne].
    + rewrite lookup_insert_eq in Hw. simplify_eq.
      exists (length (calls s)), []. rewrite lookup_insert_eq.
      split; [done|]. split; [apply lookup_snoc_Some; by right|].
      split; [|split; [|split]].
      * intros me Hc. apply lookup_snoc_Some in Hc as [Hc|[-> _]]; [|by left].
        by destruct (Hnew me).
      * intros me Hme. by apply elem_of_nil in Hme.
      * intros me r' Ha. destruct (decide (me = length (calls s))) as [|Hme]; [done|].
        rewrite lookup_insert_ne in Ha by done.
        apply (inv_awaiting _ Hinv) in Ha as [Ha _]. congruence.
      * left. apply lookup_insert_eq.
    + rewrite lookup_insert_ne in Hw by done.
      destruct (inv_waiting _ Hinv _ _ Hw)
        as (leader & ws & Ha & Hl & Hall & Hws & Haw & Hlead).
      exists leader, ws. rewrite lookup_insert_ne by (symmetry; by eapply Hfresh).
      split; [done|]. split; [apply lookup_snoc_Some; by left|].
      split; [|split; [|split]].
      * intros me Hc. apply lookup_snoc_Some in Hc as [Hc|[-> ?]]; [by apply Hall|done].
      * intros me Hme. apply lookup_snoc_Some. left. by apply Hws.
      * intros me r' Ha'. destruct (decide (me = length (calls s))) as [->|Hme].
        -- rewrite lookup_insert_eq in Ha'. congruence.
        -- rewrite lookup_insert_ne in Ha' by done. by eapply Haw.
      * destruct Hlead as [Hlead|Hlead]; [left|by right].
        rewrite lookup_insert_ne; [done|]. symmetry. by eapply calls_lt.
  - intros me b r Ha. destruct (decide (me = length (calls s))) as [->|Hme].
    + rewrite lookup_insert_eq in Ha. simplify_eq. rewrite lookup_insert_eq.
      split; [done|]. apply lookup_snoc_Some. by right.
    + rewrite lookup_insert_ne in Ha by done.
      destruct (inv_awaiting _ Hinv _ _ _ Ha) as [Hw Hc].
      split; [|apply lookup_snoc_Some; by left].
      rewrite lookup_insert_ne; [done|]. intros <-. congruence.
  - intros b1 b2 r H1 H2.
    destruct (decide (b1 = biz)) as [->|Hne1], (decide (b2 = biz)) as [->|Hne2];
      try done.
    + rewrite lookup_insert_eq in H1. rewrite lookup_insert_ne in H2 by done.
      simplify_eq. by destruct (Hfresh _ _ H2).
    + rewrite lookup_insert_eq in H2. rewrite lookup_insert_ne in H1 by done.
      simplify_eq. by destruct (Hfresh _ _ H1).
    + rewrite lookup_insert_ne in H1, H2 by done. by eapply (inv_refs _ Hinv).
Qed.

Lemma invariant_call_waits s biz ref :
  invariant s ->
  profileMap (this s) !! biz = None ->
  profileWaitingMap (this s) !! biz = Some ref ->
  invariant (find_call biz s).1.
Proof.
  intros Hinv Hpm Hwm. unfold find_call. rewrite Hpm, Hwm. cbn.
  assert (Hbiz : biz ∈ calls s) by (apply (inv_known _ Hinv); eauto).
  split; cbn.
  - intros b. rewrite elem_of_app, list_elem_of_singleton, <- (inv_known _ Hinv).
    split; [intros [?| ->]; done|eauto].
  - intros b. unfold times_queried. cbn.
    pose proof (inv_queries _ Hinv b) as Hq. unfold times_queried in Hq.
    rewrite Hq. destruct (decide (b ∈ calls s)) as [Hb|Hb].
    + rewrite decide_True; [done|]. apply elem_of_app. by left.
    + rewrite decide_False; [done|].
      rewrite elem_of_app, list_elem_of_singleton. intros [?| ->]; done.
  - apply (inv_exclusive _ Hinv).
  - intros me b d Hc Hb. apply lookup_snoc_Some in Hc as [Hc|[-> <-]].
    + by eapply (inv_cached _ Hinv).
    + congruence.
  - intros me d Hr. destruct (inv_returned _ Hinv _ _ Hr) as (b & Hc & Hb).
    exists b. split; [|done]. apply lookup_snoc_Some. by left.
  - intros b r Hw.
    destruct (inv_waiting _ Hinv _ _ Hw)
      as (leader & ws & Ha & Hl & Hall & Hws & Haw & Hlead).
    destruct (decide (b = biz)) as [->|Hne].
    + assert (r = ref) as -> by congruence.
      exists leader, (ws ++ [length (calls s)]).
      rewrite lookup_alter_eq, Ha.
      split; [done|]. split; [apply lookup_snoc_Some; by left|].
      split; [|split; [|done]].
      * intros me Hc. rewrite elem_of_app, list_elem_of_singleton.
        apply lookup_snoc_Some in Hc as [Hc|[-> _]]; [|by eauto].
        destruct (Hall me Hc); eauto.
      * intros me Hme. apply lookup_snoc_Some.
        apply elem_of_app in Hme as [Hme|Hme%list_elem_of_singleton]; eauto.
    + assert (r <> ref).
      { intros ->. apply Hne. by eapply (inv_refs _ Hinv). }
      exists leader, ws. rewrite lookup_alter_ne by done.
      split; [done|]. split; [apply lookup_snoc_Some; by left|].
      split; [|split; [|done]].
      * intros me Hc. apply lookup_snoc_Some in Hc as [Hc|[-> ?]]; [by apply Hall|done].
      * intros me Hme. apply lookup_snoc_Some. left. by apply Hws.
  - intros me b r Ha. destruct (inv_awaiting _ Hinv _ _ _ Ha) as [Hw Hc].
    split; [done|]. apply lookup_snoc_Some. by left.
  - apply (inv_refs _ Hinv).
Qed.

Lemma invariant_call s biz : invariant s -> invariant (find_call biz s).1.
Proof.
  intros Hinv.
  destruct (profileMap (this s) !! biz) as [doc|] eqn:Hpm;
    [by eapply invariant_call_cached|].
  destruct (profileWaitingMap (this s) !! biz) as [ref|] eqn:Hwm;
    [by eapply invariant_call_waits|by apply invariant_call_leader].
Qed.

Lemma invariant_query_rejects s me s' :
  invariant s -> query_rejects me s = Some s' -> invariant s'.
Proof.
  intros Hinv. unfold query_rejects.
  destruct (awaiting s !! me) as [[biz ref]|] eqn:Ha; [|done].
  intros [= <-]. split; cbn; try apply Hinv.
  - intros b r Hw.
    destruct (inv_waiting _ Hinv _ _ Hw)
      as (leader & ws & ? & ? & ? & ? & Haw & Hlead).
    exists leader, ws. split; [done|]. split; [done|]. split; [done|].
    split; [done|]. split.
    + intros m r' Hm. apply lookup_delete_Some in Hm as [_ Hm]. by eapply Haw.
    + destruct (decide (leader = me)) as [->|Hne]; [right; by left|].
      destruct Hlead as [Hlead|Hlead]; [left|right; by right].
      by rewrite lookup_delete_ne.
  - intros m b r Hm. apply lookup_delete_Some in Hm as [_ Hm].
    by apply (inv_awaiting _ Hinv).
Qed.

Lemma invariant_query_resolves s me result s' :
  invariant s -> query_resolves me result s = Some s' -> invariant s'.
Proof.
  intros Hinv. unfold query_resolves.
  destruct (awaiting s !! me) as [[biz ref]|] eqn:Ha; [|done].
  intros [= <-].
  destruct (inv_awaiting _ Hinv _ _ _ Ha) as [Hwm Hme].
  destruct (inv_waiting _ Hinv _ _ Hwm)
    as (leader & ws & Harr & Hl & Hall & Hws & Haw & _).
  assert (leader = me) as -> by (symmetry; by eapply Haw).
  assert (Hpm : profileMap (this s) !! biz = None).
  { destruct (profileMap (this s) !! biz) eqn:E; [|done].
    rewrite (inv_exclusive _ Hinv biz) in Hwm by eauto. done. }
  rewrite Harr. cbn [default].
  split; cbn -[trigger].
  - intros b. rewrite (inv_known _ Hinv). destruct (decide (b = biz)) as [->|Hne].
    + rewrite lookup_insert_eq. split; eauto.
    + by rewrite lookup_insert_ne, lookup_delete_ne.
  - intros b. apply (inv_queries _ Hinv).
  - intros b Hb. destruct (decide (b = biz)) as [->|Hne].
    + apply lookup_delete_eq.
    + rewrite lookup_insert_ne in Hb by done. rewrite lookup_delete_ne by done.
      by apply (inv_exclusive _ Hinv).
  - intros m b d Hc Hb. destruct (decide (b = biz)) as [->|Hne].
    + rewrite lookup_insert_eq in Hb. simplify_eq.
      destruct (decide (m = me)) as [->|Hm]; [apply lookup_insert_eq|].
      rewrite lookup_insert_ne by done. rewrite trigger_lookup.
      destruct (Hall m Hc) as [?|Hin]; [done|]. by rewrite decide_True.
    + rewrite lookup_insert_ne in Hb by done.
      rewrite lookup_insert_ne by (intros <-; congruence).
      rewrite trigger_lookup, decide_False.
      * by eapply (inv_cached _ Hinv).
      * intros Hin. apply Hws in Hin. congruence.
  - intros m d Hr. destruct (decide (m = me)) as [->|Hm].
    + rewrite lookup_insert_eq in Hr. simplify_eq. exists biz.
      by rewrite lookup_insert_eq.
    + rewrite lookup_insert_ne in Hr by done. rewrite trigger_lookup in Hr.
      destruct (decide (m ∈ ws)) as [Hin|Hin].
      * simplify_eq. exists biz. rewrite lookup_insert_eq. split; [by apply Hws|done].
      * destruct (inv_returned _ Hinv _ _ Hr) as (b & Hc & Hb). exists b.
        split; [done|]. rewrite lookup_insert_ne; [done|]. intros <-. congruence.
  - intros b r Hw. apply lookup_delete_Some in Hw as [Hne Hw].
    destruct (inv_waiting _ Hinv _ _ Hw)
      as (leader & ws' & ? & ? & ? & ? & Haw' & Hlead).
    exists leader, ws'. split; [done|]. split; [done|]. split; [done|].
    split; [done|]. split.
    + intros m r' Hm. apply lookup_delete_Some in Hm as [_ Hm]. by eapply Haw'.
    + destruct Hlead as [Hlead|Hlead]; [left|by right].
      rewrite lookup_delete_ne; [done|]. intros <-. congruence.
  - intros m b r Hm. apply lookup_delete_Some in Hm as [Hne Hm].
    destruct (inv_awaiting _ Hinv _ _ _ Hm) as [Hw Hc]. split; [|done].
    rewrite lookup_delete_ne; [done|]. intros <-. apply Hne. symmetry. by eapply Haw.
  - intros b1 b2 r H1 H2. apply lookup_delete_Some in H1 as [_ H1].
    apply lookup_delete_Some in H2 as [_ H2]. by eapply (inv_refs _ Hinv).
Qed.

Lemma invariant_step e s s' : invariant s -> step e s = Some s' -> invariant s'.
Proof.
  intros Hinv. destruct e as [biz|me result|me]; cbn.
  - intros [= <-]. by apply invariant_call.
  - by apply invariant_query_resolves.
  - by apply invariant_query_rejects.
Qed.

Lemma invariant_run es s s' : invariant s -> run es s = Some s' -> invariant s'.
Proof.
  revert s. induction es as [|e es IH]; intros s Hinv; cbn.
  - by intros [= <-].
  - destruct (step e s) as [s1|] eqn:Hs; [|done].
    apply IH. by eapply invariant_step.
Qed.

Lemma resolved_stays_step e s s' biz doc :
  invariant s ->
  profileMap (this s) !! biz = Some doc ->
  step e s = Some s' ->
  profileMap (this s') !! biz = Some doc.
Proof.
  intros Hinv Hpm. destruct e as [b|me result|me]; cbn.
  - intros [= <-]. unfold find_call.
    destruct (profileMap (this s) !! b); [done|].
    by destruct (profileWaitingMap (this s) !! b).
  - unfold query_resolves.
    destruct (awaiting s !! me) as [[b ref]|] eqn:Ha; [|done].
    intros [= <-]. cbn. rewrite lookup_insert_ne; [done|]. intros ->.
    apply (inv_awaiting _ Hinv) in Ha as [Hw _].
    rewrite (inv_exclusive _ Hinv biz) in Hw by eauto. done.
  - unfold query_rejects. destruct (awaiting s !! me); [|done].
    by intros [= <-].
Qed.

Lemma resolved_stays_run es s s' biz doc :
  invariant s ->
  profileMap (this s) !! biz = Some doc ->
  run es s = Some s' ->
  profileMap (this s') !! biz = Some doc.
Proof.
  revert s. induction es as [|e es IH]; intros s Hinv Hpm; cbn.
  - by intros [= <-].
  - destruct (step e s) as [s1|] eqn:Hs; [|done].
    apply IH; [by eapply invariant_step|by eapply resolved_stays_step].
Qed.

Lemma times_queried_once s biz :
  invariant s -> biz ∈ calls s -> times_queried biz s = 1%nat.
Proof. intros Hinv Hin. by rewrite (inv_queries _ Hinv), decide_True. Qed.

Lemma stuck_step e s s' biz :
  invariant s -> stuck biz s -> step e s = Some s' -> stuck biz s'.
Proof.
  intros Hinv (Hpm & [ref Hwm] & Haw). destruct e as [b|me result|me]; cbn.
  - intros [= <-]. unfold find_call.
    destruct (profileMap (this s) !! b) as [d|] eqn:Hb; [done|].
    destruct (profileWaitingMap (this s) !! b) as [r|] eqn:Hw; [done|].
    assert (b <> biz) by congruence.
    split; [done|]. cbn. split; [by rewrite lookup_insert_ne; eauto|].
    intros me r. destruct (decide (me = length (calls s))) as [->|Hne].
    + rewrite lookup_insert_eq. congruence.
    + rewrite lookup_insert_ne by done. apply Haw.
  - unfold query_resolves.
    destruct (awaiting s !! me) as [[b r]|] eqn:Ha; [|done].
    intros [= <-]. assert (b <> biz) by (intros ->; by eapply Haw).
    split; [by cbn; rewrite lookup_insert_ne|].
    split; [by cbn; rewrite lookup_delete_ne; eauto|].
    cbn. intros m r' Hm. apply lookup_delete_Some in Hm as [_ Hm].
    by eapply Haw.
  - unfold query_rejects. destruct (awaiting s !! me) eqn:Ha; [|done].
    intros [= <-]. split; [done|]. split; [by eauto|].
    cbn. intros m r' Hm. apply lookup_delete_Some in Hm as [_ Hm].
    by eapply Haw.
Qed.

Lemma stuck_run es s s' biz :
  invariant s -> stuck biz s -> run es s = Some s' -> stuck biz s'.
Proof.
  revert s. induction es as [|e es IH]; intros s Hinv Hst; cbn.
  - by intros [= <-].
  - destruct (step e s) as [s1|] eqn:Hs; [|done].
    apply IH; [by eapply invariant_step|by eapply stuck_step].
Qed.

Lemma query_rejects_stuck s me biz ref s' :
  invariant s -> awaiting s !! me = Some (biz, ref) ->
  query_rejects me s = Some s' -> stuck biz s'.
Proof.
  intros Hinv Ha. unfold query_rejects. rewrite Ha. intros [= <-].
  destruct (inv_awaiting _ Hinv _ _ _ Ha) as [Hw Hc].
  destruct (inv_waiting _ Hinv _ _ Hw) as (leader & ws & _ & _ & _ & _ & Haw & _).
  split; [|split]; cbn.
  - destruct (profileMap (this s) !! biz) eqn:E; [|done].
    rewrite (inv_exclusive _ Hinv biz) in Hw by eauto. done.
  - eauto.
  - intros m r Hm. apply lookup_delete_Some in Hm as [Hne Hm].
    apply Hne. rewrite (Haw _ _ Hm). by eapply Haw.
Qed.

Lemma calls_stay_run es s s' me biz :
  run es s = Some s' -> calls s !! me = Some biz -> calls s' !! me = Some biz.
Proof.
  revert s. induction es as [|e es IH]; intros s; cbn.
  - by intros [= <-].
  - destruct (step e s) as [s1|] eqn:Hs; [|done].
    intros Hrun Hc. apply (IH s1 Hrun).
    destruct e as [b|m result|m]; cbn in Hs.
    + injection Hs as <-.
      assert (calls (find_call b s).1 = calls s ++ [b]) as ->
        by (unfold find_call;
            by destruct (profileMap (this s) !! b),
              (profileWaitingMap (this s) !! b)).
      by apply lookup_app_l_Some.
    + unfold query_resolves in Hs.
      destruct (awaiting s !! m) as [[b r]|]; [|done]. by injection Hs as <-.
    + unfold query_rejects in Hs.
      destruct (awaiting s !! m); [|done]. by injection Hs as <-.
Qed.

Lemma run_app es1 es2 s s' :
  run (es1 ++ es2) s = Some s' ->
  exists s1, run es1 s = Some s1 /\ run es2 s1 = Some s'.
Proof.
  revert s. induction es1 as [|e es1 IH]; intros s; cbn; [by eauto|].
  destruct (step e s) as [s1|]; [|done]. apply IH.
Qed.

(** A key whose query the store has rejected stays as the rejection left
    it. *)
Lemma rejected_key_stuck es s me biz :
  run es (start new) = Some s ->
  QueryRejects me ∈ es -> calls s !! me = Some biz -> stuck biz s.
Proof.
  intros Hrun Hin Hc.
  apply list_elem_of_split in Hin as (es1 & es2 & ->).
  apply run_app in Hrun as (s1 & Hrun1 & Hrun2).
  assert (Hinv1 : invariant s1)
    by (eapply invariant_run; [apply invariant_start|done]).
  cbn [run step] in Hrun2.
  destruct (query_rejects me s1) as [s2|] eqn:Hs2; [|done].
  assert (Hinv2 : invariant s2) by (by eapply invariant_query_rejects).
  destruct (awaiting s1 !! me) as [[b ref]|] eqn:Ha;
    [|unfold query_rejects in Hs2; by rewrite Ha in Hs2].
  destruct (inv_awaiting _ Hinv1 _ _ _ Ha) as [_ Hc1].
  assert (Hc2 : calls s2 !! me = Some b).
  { unfold query_rejects in Hs2. rewrite Ha in Hs2. by injection Hs2 as <-. }
  pose proof (calls_stay_run es2 s2 s me b Hrun2 Hc2) as Hc'.
  assert (b = biz) as -> by congruence.
  apply (stuck_run es2 s2 s biz Hinv2); [|done].
  exact (query_rejects_stuck s1 me biz ref s2 Hinv1 Ha Hs2).
Qed.

(** A call has thrown only if the store rejected its query. *)
Lemma threw_run (es : list Event) (s0 s : Run) (me : nat) :
  run es s0 = Some s -> me ∈ threw s ->
  me ∈ threw s0 \/ QueryRejects me ∈ es.
Proof.
  revert s0. induction es as [|e es IH]; intros s0; cbn.
  - intros [= <-]. by left.
  - destruct (step e s0) as [s1|] eqn:Hs; [|done].
    intros Hrun Hin. destruct (IH s1 Hrun Hin) as [H1|H1].
    + destruct e as [b|m result|m]; cbn in Hs.
      * injection Hs as <-. left. revert H1. unfold find_call.
        by destruct (profileMap (this s0) !! b),
          (profileWaitingMap (this s0) !! b).
      * unfold query_resolves in Hs.
        destruct (awaiting s0 !! m) as [[b r]|]; [|done].
        injection Hs as <-. by left.
      * unfold query_rejects in Hs.
        destruct (awaiting s0 !! m); [|done].
        injection Hs as <-. cbn in H1.
        apply elem_of_cons in H1 as [->|H1]; [right; left|by left].
    + right. by right.
Qed.

(** C1, as the code has it.  On one handler (one [FindProfileHandler]
    object), however the calls of [find] and the answers of the store
    interleave: a key that was asked for has been queried exactly once;
    two calls for it that have returned have returned the same value; once
    the key is resolved every call made for it has returned the resolved
    value.  As long as it is not resolved no call for it has returned, and
    one of its calls is the leader: unless the store has rejected the
    query of the leader, the leader is suspended on that query, and when
    the query comes back with [result] (a document, or [null] for none) no
    other query is issued and every call made for the key until then, the
    leader and all those that were waiting, returns [result].  A key whose
    query the store has rejected is never resolved. *)
Theorem find_is_single_flight (es : list Event) (s : Run) (biz : Value) :
  run es (start new) = Some s ->
  biz ∈ calls s ->
  times_queried biz s = 1%nat
  /\ (forall me1 me2 d1 d2,
        calls s !! me1 = Some biz -> calls s !! me2 = Some biz ->
        returned s !! me1 = Some d1 -> returned s !! me2 = Some d2 ->
        d1 = d2)
  /\ (forall result,
        profileMap (this s) !! biz = Some result ->
        forall me, calls s !! me = Some biz -> returned s !! me = Some result)
  /\ (profileMap (this s) !! biz = None ->
      (forall me, calls s !! me = Some biz -> returned s !! me = None)
      /\ exists leader,
           calls s !! leader = Some biz
           /\ (QueryRejects leader ∈ es
               \/ exists ref,
                    awaiting s !! leader = Some (biz, ref)
                    /\ forall result, exists s',
                         step (QueryResolves leader result) s = Some s'
                         /\ queries s' = queries s
                         /\ calls s' = calls s
                         /\ forall me, calls s !! me = Some biz ->
                                       returned s' !! me = Some result))
  /\ (forall leader,
        QueryRejects leader ∈ es -> calls s !! leader = Some biz ->
        profileMap (this s) !! biz = None).
Proof.
  intros Hrun Hin.
  assert (Hinv : invariant s) by (eapply invariant_run; [apply invariant_start|done]).
  split; [by apply times_queried_once|]. split.
  { intros me1 me2 d1 d2 Hc1 Hc2 Hr1 Hr2.
    destruct (inv_returned _ Hinv _ _ Hr1) as (b1 & Hb1 & Hp1).
    destruct (inv_returned _ Hinv _ _ Hr2) as (b2 & Hb2 & Hp2).
    congruence. }
  split.
  { intros result Hpm me Hc. by apply (inv_cached _ Hinv me biz). }
  split.
  2:{ intros leader Hrej Hc.
      by destruct (rejected_key_stuck es s leader biz Hrun Hrej Hc) as [Hpm _]. }
  intros Hpm. split.
  { intros me Hc. destruct (returned s !! me) as [d|] eqn:Hr; [|done].
    destruct (inv_returned _ Hinv _ _ Hr) as (b & Hb & Hd). congruence. }
  apply (inv_known _ Hinv) in Hin as [[? Hin]|[ref Hin]]; [congruence|].
  destruct (inv_waiting _ Hinv _ _ Hin) as (leader & ws & _ & Hl & _ & _ & _ & Hlead).
  exists leader. split; [done|].
  destruct Hlead as [Ha|Ht].
  - right. exists ref. split; [done|].
    intros result.
    destruct (query_resolves leader result s) as [s'|] eqn:Hs;
      [|unfold query_resolves in Hs; by rewrite Ha in Hs].
    exists s'. split; [done|].
    assert (Hinv' : invariant s') by (by eapply invariant_query_resolves).
    unfold query_resolves in Hs. rewrite Ha in Hs. injection Hs as <-.
    split; [done|]. split; [done|].
    intros me Hc. apply (inv_cached _ Hinv' me biz); [done|].
    cbn. apply lookup_insert_eq.
  - left. destruct (threw_run es (start new) s leader Hrun Ht) as [H|H];
      [|done].
    cbn in H. by apply elem_of_nil in H.
Qed.

(** C2, as the code has it.  On one handler, once a call of [find] for a
    key has returned, whatever happens next on that handler: a call for the
    key returns the value of the first call at once, without a query; the
    key has been queried once in all; and every call made for the key has
    returned that value. *)
Theorem resolved_key_is_not_queried_again
    (es es' : list Event) (s s' : Run) (biz : Value) (me : nat)
    (doc : option Doc) :
  run es (start new) = Some s ->
  calls s !! me = Some biz ->
  returned s !! me = Some doc ->
  run es' s = Some s' ->
  (find_call biz s').2 = Returns doc
  /\ queries (find_call biz s').1 = queries s'
  /\ times_queried biz s' = 1%nat
  /\ times_queried biz s = 1%nat
  /\ forall me', calls s' !! me' = Some biz -> returned s' !! me' = Some doc.
Proof.
  intros Hrun Hc Hr Hrun'.
  assert (Hinv : invariant s) by (eapply invariant_run; [apply invariant_start|done]).
  assert (Hinv' : invariant s') by (by eapply invariant_run).
  destruct (inv_returned _ Hinv _ _ Hr) as (b & Hb & Hpm).
  assert (b = biz) as -> by congruence.
  assert (Hpm' : profileMap (this s') !! biz = Some doc)
    by exact (resolved_stays_run es' s s' biz doc Hinv Hpm Hrun').
  unfold find_call. rewrite Hpm'. cbn.
  split; [done|]. split; [done|].
  split.
  { apply times_queried_once; [done|]. apply (inv_known _ Hinv'). eauto. }
  split.
  { apply times_queried_once; [done|]. by eapply list_elem_of_lookup_2. }
  intros me' Hc'. by eapply (inv_cached _ Hinv').
Qed.

Example three_callers_one_query :
  let biz := VStr (js "Bz1") in
  let s := default (start new)
             (run [Call biz; Call biz; Call biz;
                   QueryResolves 0 (Some complete_profile)] (start new)) in
  queries s = [biz]
  /\ returned s !! 0%nat = Some (Some complete_profile)
  /\ returned s !! 1%nat = Some (Some complete_profile)
  /\ returned s !! 2%nat = Some (Some complete_profile)
  /\ profileWaitingMap (this s) !! biz = None
  /\ profileMap (this s) !! biz = Some (Some complete_profile).
Proof. repeat split; reflexivity. Qed.

Lemma find_is_single_flight_witness :
  let biz := VStr (js "Bz1") in
  let es := [Call biz; Call (VStr (js "Bz2")); Call biz;
             QueryResolves 1 None; Call biz] in
  let s := default (start new) (run es (start new)) in
  let s' := default s (step (QueryResolves 0 (Some complete_profile)) s) in
  (times_queried biz s = 1%nat
   /\ (forall me1 me2 d1 d2,
         calls s !! me1 = Some biz -> calls s !! me2 = Some biz ->
         returned s !! me1 = Some d1 -> returned s !! me2 = Some d2 ->
         d1 = d2)
   /\ (forall result,
         profileMap (this s) !! biz = Some result ->
         forall me, calls s !! me = Some biz -> returned s !! me = Some result)
   /\ (profileMap (this s) !! biz = None ->
       (forall me, calls s !! me = Some biz -> returned s !! me = None)
       /\ exists leader,
            calls s !! leader = Some biz
            /\ (QueryRejects leader ∈ es
                \/ exists ref,
                     awaiting s !! leader = Some (biz, ref)
                     /\ forall result, exists s',
                          step (QueryResolves leader result) s = Some s'
                          /\ queries s' = queries s
                          /\ calls s' = calls s
                          /\ forall me, calls s !! me = Some biz ->
                                        returned s' !! me = Some result))
   /\ (forall leader,
         QueryRejects leader ∈ es -> calls s !! leader = Some biz ->
         profileMap (this s) !! biz = None))
  /\ calls s = [biz; VStr (js "Bz2"); biz; biz]
  /\ profileMap (this s) !! biz = None
  /\ queries s' = [biz; VStr (js "Bz2")]
  /\ returned s' !! 0%nat = Some (Some complete_profile)
  /\ returned s' !! 2%nat = Some (Some complete_profile)
  /\ returned s' !! 3%nat = Some (Some complete_profile).
Proof.
  intros biz es s s'. split.
  - apply (find_is_single_flight es s biz).
    + reflexivity.
    + apply (list_elem_of_lookup_2 _ 0%nat). reflexivity.
  - repeat split; reflexivity.
Defined.

Lemma resolved_key_is_not_queried_again_witness :
  let biz := VStr (js "Bz1") in
  let es := [Call biz; Call biz; QueryResolves 0 None] in
  let es' := [Call (VStr (js "Bz2")); Call biz; QueryRejects 2; Call biz] in
  let s := default (start new) (run es (start new)) in
  let s' := default (start new) (run es' s) in
  (find_call biz s').2 = Returns None
  /\ queries (find_call biz s').1 = queries s'
  /\ times_queried biz s' = 1%nat
  /\ times_queried biz s = 1%nat
  /\ forall me', calls s' !! me' = Some biz -> returned s' !! me' = Some None.
Proof.
  intros biz es es' s s'.
  apply (resolved_key_is_not_queried_again es es' s s' biz 1%nat None);
    reflexivity.
Defined.

(** C1, as the specification has it, fails when the store rejects the
    query: of three calls made for a key while it is unresolved, the leader
    ends with the rejection and the two others are never woken up.  One
    query was issued and no call returns a result, whatever happens next
    on the handler. *)
Lemma a_rejected_query_answers_nobody :
  let biz := VStr (js "Bz1") in
  let es := [Call biz; Call biz; Call biz; QueryRejects 0] in
  exists s,
    run es (start new) = Some s
    /\ calls s = [biz; biz; biz]
    /\ queries s = [biz]
    /\ threw s = [0%nat]
    /\ awaiting s = ∅
    /\ forall es' s',
         run es' s = Some s' ->
         times_queried biz s' = 1%nat
         /\ forall me, calls s' !! me = Some biz -> returned s' !! me = None.
Proof.
  intros biz es.
  destruct (run [Call biz; Call biz; Call biz] (start new)) as [s0|] eqn:Hs0;
    [|done].
  assert (Hinv0 : invariant s0)
    by (eapply invariant_run; [apply invariant_start|done]).
  injection Hs0 as Hs0.
  destruct (query_rejects 0 s0) as [s|] eqn:Hs; [|by subst s0].
  assert (Hst : stuck biz s).
  { apply (query_rejects_stuck s0 0%nat biz
             (fresh (dom (arrays (start new)))) s Hinv0); [by subst s0|done]. }
  assert (Hinv : invariant s) by (by eapply invariant_query_rejects).
  exists s. split.
  { change (run es (start new))
      with (match query_rejects 0
                    (find_call biz (find_call biz
                       (find_call biz (start new)).1).1).1
            with Some s' => Some s' | None => None end).
    rewrite Hs0. by rewrite Hs. }
  subst s0. injection Hs as <-.
  split; [reflexivity|]. split; [reflexivity|]. split; [reflexivity|].
  split; [reflexivity|].
  intros es' s' Hrun.
  assert (Hinv' : invariant s') by (by eapply invariant_run).
  destruct (stuck_run es' _ s' biz Hinv Hst Hrun) as (Hpm & Hwm & _).
  split.
  - apply times_queried_once; [done|]. apply (inv_known _ Hinv'). by right.
  - intros me Hc. destruct (returned s' !! me) as [d|] eqn:Hr; [|done].
    destruct (inv_returned _ Hinv' _ _ Hr) as (b & Hb & Hd). congruence.
Qed.

End FindProfileHandlerProps.

(** C2, as the specification has it, fails: [savePostsData] makes a handler
    of its own (line 81), so the value a batch resolved for a key is not
    there for the next batch.  Two batches in a row for the same publisher
    both resolve, and each queries the profile of the publisher. *)
Lemma a_new_handler_queries_again :
  let deps := example_deps true (js "html") in
  let batch := [ example_entry "a" "http://h/s?__biz=Bz1&amp;mid=M&amp;idx=1" ] in
  let lookup := ProfileFindOne (VStr (js "Bz1")) in
  let r1 := savePostsData deps batch empty_world in
  let r2 := savePostsData deps batch r1.2 in
  (length <$> value_of r1.1) = Some 1%nat
  /\ (length <$> value_of r2.1) = Some 1%nat
  /\ length (filter (fun op => op = lookup) (trace r1.2)) = 1%nat
  /\ length (filter (fun op => op = lookup) (trace r2.2)) = 2%nat.
Proof. vm_compute. repeat split; reflexivity. Qed.

(** ** Reading a page: markers and fields (lines 147-184) *)

(** ** Strings *)

Lemma starts_with_spec (p s : jsstring) :
  starts_with p s = true <-> exists r, s = p ++ r.
Proof.
  revert s. induction p as [|a p IH]; intros s; cbn.
  - split; eauto.
  - destruct s as [|b s].
    + split; [done|]. by intros [r [=]].
    + rewrite andb_true_iff, N.eqb_eq, IH. split.
      * intros [-> [r ->]]. eauto.
      * intros [r [= -> ->]]. eauto.
Qed.

Lemma starts_with_app (p r : jsstring) : starts_with p (p ++ r) = true.
Proof. apply starts_with_spec. eauto. Qed.

Lemma includes_spec (p s : jsstring) :
  includes p s = true <-> exists a b, s = a ++ p ++ b.
Proof.
  induction s as [|c s IH]; cbn [includes]; rewrite orb_true_iff, starts_with_spec.
  - split.
    + intros [[r Hr]|?]; [|done]. exists [], r. done.
    + intros (a & b & H). left.
      destruct a; [by exists b|done].
  - rewrite IH. split.
    + intros [[r Hr]|(a & b & ->)]; [by exists [], r|].
      by exists (c :: a), b.
    + intros (a & b & H). destruct a as [|x a].
      * left. by exists b.
      * right. injection H as -> ->. eauto.
Qed.

(** X1. The test of line 150 finds a marker wherever it stands: a page is
    taken as invalid exactly when it holds [global_error_msg] or
    [icon_msg warn] somewhere. *)
Theorem invalidated_iff_marker (body : jsstring) :
  invalidated body = true
  <-> exists before after,
        body = before ++ js "global_error_msg" ++ after
        \/ body = before ++ js "icon_msg warn" ++ after.
Proof.
  unfold invalidated. rewrite orb_true_iff, !includes_spec. split.
  - intros [(a & b & ->)|(a & b & ->)]; exists a, b; eauto.
  - intros (a & b & [->| ->]); eauto.
Qed.

(** *** The regular expressions *)

Lemma lazy_group_sound cls suf need s t :
  lazy_group cls suf need s = Some t ->
  Forall (fun c => cls c = true) t
  /\ (need = true -> t <> [])
  /\ exists rest, s = t ++ suf ++ rest.
Proof.
  revert need t. induction s as [|c s IH]; intros need t; cbn [lazy_group].
  - destruct (negb need && starts_with suf []) eqn:E; [|done].
    intros [= <-]. apply andb_true_iff in E as [En E].
    apply starts_with_spec in E as [r Hr].
    split; [constructor|]. split; [by destruct need|]. by exists r.
  - destruct (negb need && starts_with suf (c :: s)) eqn:E.
    + intros [= <-]. apply andb_true_iff in E as [En E].
      apply starts_with_spec in E as [r Hr].
      split; [constructor|]. split; [by destruct need|]. by exists r.
    + destruct (cls c) eqn:Hc; [|done].
      destruct (lazy_group cls suf false s) as [t'|] eqn:Ht; [|done].
      intros [= <-]. destruct (IH _ _ Ht) as (Hall & _ & rest & ->).
      split; [by constructor|]. split; [done|]. by exists rest.
Qed.

Lemma greedy_group_sound cls suf s t :
  greedy_group cls suf s = Some t ->
  Forall (fun c => cls c = true) t
  /\ t <> []
  /\ exists rest, s = t ++ suf ++ rest.
Proof.
  revert t. induction s as [|c s IH]; intros t; cbn [greedy_group]; [done|].
  destruct (cls c) eqn:Hc; [|done].
  destruct (greedy_group cls suf s) as [t'|] eqn:Ht.
  - intros [= <-]. destruct (IH _ eq_refl) as (Hall & _ & rest & ->).
    split; [by constructor|]. split; [done|]. by exists rest.
  - destruct (starts_with suf s) eqn:E; [|done].
    intros [= <-]. apply starts_with_spec in E as [r ->].
    split; [by repeat constructor|]. split; [done|]. by exists r.
Qed.

Lemma match_here_sound re s t :
  match_here re s = Some t ->
  Forall (fun c => cls re c = true) t
  /\ (quant re <> LazyStar -> t <> [])
  /\ exists rest, s = pre re ++ t ++ suf re ++ rest.
Proof.
  unfold match_here. destruct (starts_with (pre re) s) eqn:E; [|done].
  apply starts_with_spec in E as [r ->]. rewrite drop_app_length.
  destruct (quant re).
  - intros (? & ? & rest & ->)%lazy_group_sound. repeat split; eauto.
  - intros (? & ? & rest & ->)%lazy_group_sound. repeat split; eauto.
  - intros (? & ? & rest & ->)%greedy_group_sound. repeat split; eauto.
Qed.

Lemma exec_sound re s t :
  exec re s = Some t ->
  Forall (fun c => cls re c = true) t
  /\ (quant re <> LazyStar -> t <> [])
  /\ exists before after, s = before ++ pre re ++ t ++ suf re ++ after.
Proof.
  induction s as [|c s IH]; cbn [exec].
  - destruct (match_here re []) as [t'|] eqn:E; [|done].
    intros [= ->]. destruct (match_here_sound _ _ _ E) as (? & ? & rest & Hr).
    repeat split; try done. by exists [], rest.
  - destruct (match_here re (c :: s)) as [t'|] eqn:E.
    + intros [= ->]. destruct (match_here_sound _ _ _ E) as (? & ? & rest & Hr).
      repeat split; try done. by exists [], rest.
    + intros (? & ? & a & b & ->)%IH. repeat split; try done.
      by exists (c :: a), b.
Qed.

Lemma exec_None_without_prefix re s :
  includes (pre re) s = false -> exec re s = None.
Proof.
  induction s as [|c s IH]; cbn [includes exec]; intros H;
    apply orb_false_iff in H as [H1 H2]; unfold match_here; rewrite H1; [done|].
  by apply IH.
Qed.

(** X2. What [getTarget] returns is text of the page: when it returns a
    string, the page holds the text before the group, the string and the
    text after the group, in a row; the string is made of characters the
    group allows, and it is not empty unless the group is [(.*?)]. *)
Theorem getTarget_returns_text_of_the_page
    (re : RegExp) (body t : jsstring) :
  getTarget re body = VStr t ->
  Forall (fun c => cls re c = true) t
  /\ (quant re <> LazyStar -> t <> [])
  /\ exists before after, body = before ++ pre re ++ t ++ suf re ++ after.
Proof.
  unfold getTarget. destruct (exec re body) as [t'|] eqn:E; [|done].
  intros [= ->]. by apply exec_sound.
Qed.

Lemma getTarget_returns_text_of_the_page_witness :
  let body := js "<script>var msg_title = " ++ [dq] ++ js "Hi" ++ [dq] ++ js ";</script>" in
  Forall (fun c => cls re_title c = true) (js "Hi")
  /\ (quant re_title <> LazyStar -> js "Hi" <> [])
  /\ exists before after,
       body = before ++ pre re_title ++ js "Hi" ++ suf re_title ++ after.
Proof.
  intros body.
  apply (getTarget_returns_text_of_the_page re_title body (js "Hi")).
  reflexivity.
Defined.

Lemma lazy_group_finds cls q suf' need t after :
  q ∉ t ->
  Forall (fun c => cls c = true) t ->
  (need = true -> t <> []) ->
  lazy_group cls (q :: suf') need (t ++ (q :: suf') ++ after) = Some t.
Proof.
  revert need. induction t as [|c t IH]; intros need Hq Hall Hneed.
  - destruct need; [by destruct Hneed|].
    pose proof (starts_with_app (q :: suf') after) as H.
    destruct after; cbn [app lazy_group negb andb] in *; by rewrite H.
  - apply not_elem_of_cons in Hq as [Hne Hq].
    apply Forall_cons in Hall as [Hc Hall].
    change ((c :: t) ++ (q :: suf') ++ after)
      with (c :: (t ++ (q :: suf') ++ after)).
    cbn [lazy_group starts_with].
    replace (q =? c)%N with false by (symmetry; by apply N.eqb_neq).
    rewrite andb_false_r. cbn [andb]. rewrite Hc.
    by rewrite (IH false) by done.
Qed.

Lemma greedy_group_finds cls q suf' t after :
  cls q = false ->
  Forall (fun c => cls c = true) t ->
  t <> [] ->
  greedy_group cls (q :: suf') (t ++ (q :: suf') ++ after) = Some t.
Proof.
  intros Hq. induction t as [|c t IH]; intros Hall Hne; [done|].
  apply Forall_cons in Hall as [Hc Hall].
  change ((c :: t) ++ (q :: suf') ++ after)
    with (c :: (t ++ (q :: suf') ++ after)).
  cbn [greedy_group]. rewrite Hc.
  destruct t as [|c' t].
  - pose proof (starts_with_app (q :: suf') after) as H.
    cbn [app greedy_group] in *. by rewrite Hq, H.
  - by rewrite IH.
Qed.

Lemma exec_skips re before s :
  (forall i, (i < length before)%nat ->
             starts_with (pre re) (drop i (before ++ s)) = false) ->
  exec re (before ++ s) = exec re s.
Proof.
  induction before as [|c before IH]; intros H; [done|].
  pose proof (H 0%nat ltac:(cbn; lia)) as H0. cbn [drop app] in H0.
  cbn [app exec]. unfold match_here at 1. rewrite H0. apply IH.
  intros i Hi. apply (H (S i)). cbn. lia.
Qed.

(** X3. [getTarget] finds the first field of the page: when the text before
    the group occurs nowhere earlier, and the value is made of characters
    the group allows without the character that ends it (the quote, in all
    the expressions of lines 169-184), the value is what is returned. *)
Theorem getTarget_finds_the_first_field
    (re : RegExp) (q : N) (suf' before t after : jsstring) :
  suf re = q :: suf' ->
  q ∉ t ->
  Forall (fun c => cls re c = true) t ->
  (quant re = LazyStar \/ t <> []) ->
  (quant re = GreedyPlus -> cls re q = false) ->
  (forall i, (i < length before)%nat ->
     starts_with (pre re)
       (drop i (before ++ pre re ++ t ++ suf re ++ after)) = false) ->
  getTarget re (before ++ pre re ++ t ++ suf re ++ after) = VStr t.
Proof.
  intros Hsuf Hq Hall Hne Hgreedy Hfirst. unfold getTarget.
  rewrite exec_skips by done.
  assert (Hhere : match_here re (pre re ++ t ++ suf re ++ after) = Some t).
  { unfold match_here. rewrite starts_with_app, drop_app_length, Hsuf.
    destruct (quant re) eqn:Hquant.
    - apply lazy_group_finds; try done. intros _. by destruct Hne.
    - by apply lazy_group_finds.
    - apply greedy_group_finds; [by apply Hgreedy|done|by destruct Hne]. }
  destruct (pre re ++ t ++ suf re ++ after); cbn [exec]; by rewrite Hhere.
Qed.

Lemma getTarget_finds_the_first_field_witness :
  getTarget re_ct
    (js "<script>" ++ pre re_ct ++ js "1514736000" ++ suf re_ct ++ js "</script>")
  = VStr (js "1514736000").
Proof.
  apply (getTarget_finds_the_first_field re_ct dq (js ";") (js "<script>")
           (js "1514736000") (js "</script>")).
  - reflexivity.
  - intros H. by repeat (apply elem_of_cons in H as [H|H]; [done|]);
      apply elem_of_nil in H.
  - by repeat constructor.
  - by right.
  - reflexivity.
  - intros i Hi. do 8 (destruct i as [|i]; [reflexivity|]). cbn in Hi. lia.
Defined.

Lemma getTarget_cases re body :
  getTarget re body = VUndef
  \/ exists t, getTarget re body = VStr t
               /\ Forall (fun c => cls re c = true) t
               /\ (quant re <> LazyStar -> t <> []).
Proof.
  unfold getTarget. destruct (exec re body) as [t|] eqn:E; [|by left].
  right. exists t. destruct (exec_sound _ _ _ E) as (? & ? & _). done.
Qed.

Lemma getTarget_plus_truthy re body :
  quant re <> LazyStar ->
  getTarget re body = VUndef \/ truthy (getTarget re body) = true.
Proof.
  intros Hq. destruct (getTarget_cases re body) as [H|(t & -> & _ & Hne)];
    [by left|right].
  specialize (Hne Hq). by destruct t.
Qed.

Lemma parseInt_nonneg (s : jsstring) :
  Forall (fun c => digit c = true) s -> 0 <= parseInt s.
Proof.
  unfold parseInt.
  assert (H : forall acc, 0 <= acc ->
            Forall (fun c => digit c = true) s ->
            0 <= foldl (fun acc c => acc * 10 + (Z.of_N c - 48)) acc s).
  { induction s as [|c s IH]; intros a Ha Hall; [done|].
    apply Forall_cons in Hall as [Hc Hall]. cbn. apply IH; [|done].
    unfold digit in Hc. apply andb_true_iff in Hc as [H1 H2].
    apply N.leb_le in H1, H2. lia. }
  by apply H.
Qed.

(** X4. The fields read off a page (lines 169-184): the publication time is
    absent, or the date [seconds * 1000] for a count of seconds from 0 to
    8640000000000, or an invalid date (a count above that, which
    [new Date] cannot hold); the title, user name, cover, description,
    avatar, name and identifier are absent or not empty, so whichever of
    them the page has is written; and an identifier with a Chinese
    character is only ever the user name put in its place. *)
Theorem extract_fields_shape (body : jsstring) :
  let x := extract body in
  (x_publishAt x = VUndef
   \/ (exists seconds, 0 <= seconds <= 8640000000000
                       /\ x_publishAt x = VDate (seconds * 1000))
   \/ x_publishAt x = VInvalidDate)
  /\ Forall (fun v => v = VUndef \/ truthy v = true)
       [x_title x; x_username x; x_cover x; x_digest x; x_headimg x;
        x_nickname x; x_wechatId x]
  /\ (forall s, x_wechatId x = VStr s -> hasChinese s = true ->
                x_username x = VStr s).
Proof.
  cbn zeta. unfold extract. cbn [x_publishAt x_title x_username x_cover x_digest
    x_headimg x_nickname x_wechatId].
  assert (Hplus : forall re, quant re = LazyPlus ->
            getTarget re body = VUndef \/ truthy (getTarget re body) = true).
  { intros re Hq. apply getTarget_plus_truthy. by rewrite Hq. }
  split; [|split].
  - destruct (getTarget_cases re_ct body) as [->|(t & -> & Hall & Hne)];
      [by left|].
    replace (truthy (VStr t)) with true
      by (specialize (Hne ltac:(done)); by destruct t).
    right. pose proof (parseInt_nonneg t Hall) as Hpos. unfold new_Date.
    destruct (decide (Z.abs (parseInt t * 1000) <= 8640000000000000));
      [left|by right].
    exists (parseInt t). split; [lia|done].
  - repeat (constructor; [by apply Hplus|]).
    constructor; [|constructor].
    destruct (getTarget_cases re_wechatId body) as [->|(t & -> & _ & Hne)];
      [by left|].
    replace (truthy (VStr t)) with true
      by (specialize (Hne ltac:(done)); by destruct t).
    cbn [andb]. destruct (hasChinese t); [by apply Hplus|].
    right. specialize (Hne ltac:(done)). by destruct t.
  - intros s.
    destruct (getTarget_cases re_wechatId body) as [->|(t & -> & _ & Hne)];
      [done|].
    replace (truthy (VStr t)) with true
      by (specialize (Hne ltac:(done)); by destruct t).
    cbn [andb]. destruct (hasChinese t) eqn:Hc; [done|].
    intros [= ->]. congruence.
Qed.

(** ** A batch as a whole (lines 65-128) *)



Lemma valid_units_requests deps units :
  omap (unit_request deps) units
  = (fun ul => PostFindOneAndUpdate (unit_key deps ul.2)
                 (unit_update deps ul.1 ul.2)) <$> valid_units units.
Proof.
  unfold valid_units. induction units as [|u units IH]; [done|].
  cbn [omap list_omap]. unfold unit_request at 1.
  destruct (unit_link u) as [l|]; cbn; [by f_equal|done].
Qed.

Lemma valid_units_links units :
  omap unit_link units = snd <$> valid_units units.
Proof.
  unfold valid_units. induction units as [|u units IH]; [done|].
  cbn [omap list_omap]. destruct (unit_link u) as [l|]; cbn; [by f_equal|done].
Qed.

(** What the joined callbacks of line 83 do, request by request. *)
Lemma save_all_spec deps (units : list Unit) (w : World) :
  exists o w',
    Promise_all (save_unit deps <$> units) w = (o, w')
    /\ trace w' = trace w ++ omap (unit_request deps) units
    /\ fault w' = fault w
    /\ profiles w' = profiles w
    /\ pubRecords w' = pubRecords w
    /\ (forall res, o = Resolved res ->
          Forall2 (fun ul d => unit_update deps ul.1 ul.2 ⊆ d)
            (valid_units units) (omap id res))
    /\ ((exists i, (i < length (valid_units units))%nat
                   /\ fault w (length (trace w) + i) = true) ->
        o = Rejected)
    /\ ((forall i, (i < length (valid_units units))%nat ->
                   fault w (length (trace w) + i) = false) ->
        exists res, o = Resolved res).
Proof.
  revert w. induction units as [|u units IH]; intros w.
  - exists (Resolved []), w. cbn. rewrite app_nil_r.
    repeat split; eauto.
    + intros res [= <-]. constructor.
    + intros (i & Hi & _). lia.
  - rewrite fmap_cons. cbn [Promise_all]. rewrite save_unit_run.
    unfold valid_units. cbn [omap list_omap]. unfold unit_request at 1.
    fold (valid_units units).
    destruct (unit_link u) as [l|] eqn:Hl; cbn [mbind option_bind].
    + rewrite post_findOneAndUpdate_run. cbv zeta.
      set (op := PostFindOneAndUpdate _ _). set (d := _ ∪ _).
      destruct (fault w (length (trace w))) eqn:Hf.
      * destruct (IH (logged op w))
          as (o & w' & -> & Ht & Hfa & Hp & Hr & Hres & Hrej & Hok).
        exists Rejected, w'. split; [by destruct o|].
        rewrite Ht, Hfa, Hp, Hr. cbn. rewrite <- app_assoc.
        repeat split; try done.
        intros Hall. specialize (Hall 0%nat ltac:(lia)).
        rewrite Nat.add_0_r in Hall. congruence.
      * destruct (IH (set_post (unit_key deps l) d (logged op w)))
          as (o & w' & -> & Ht & Hfa & Hp & Hr & Hres & Hrej & Hok).
        exists (match o with Resolved res => Resolved (Some d :: res)
                        | Rejected => Rejected | Pending => Pending end), w'.
        split; [by destruct o|].
        rewrite Ht, Hfa, Hp, Hr. cbn. rewrite <- app_assoc.
        repeat split; try done.
        -- intros res Ho. destruct o as [res'| |]; simplify_eq. cbn.
           constructor; [apply map_union_subseteq_l|by apply Hres].
        -- intros (i & Hi & Hfi). destruct i as [|i].
           ++ rewrite Nat.add_0_r in Hfi. congruence.
           ++ rewrite Hrej; [done|]. exists i. split; [lia|]. cbn.
              rewrite length_app. cbn. rewrite <- Hfi. f_equal. lia.
        -- intros Hall. destruct Hok as [res ->]; [|eauto].
           intros i Hi. cbn. rewrite length_app. cbn.
           rewrite <- (Hall (S i)) by lia. f_equal. lia.
    + destruct (IH w) as (o & w' & -> & Ht & Hfa & Hp & Hr & Hres & Hrej & Hok).
      exists (match o with Resolved res => Resolved (None :: res)
                      | Rejected => Rejected | Pending => Pending end), w'.
      split; [by destruct o|].
      repeat split; try done.
      * intros res Ho. destruct o as [res'| |]; simplify_eq. cbn.
        by apply Hres.
      * intros Hi. by rewrite Hrej.
      * intros Hall. destruct Hok as [res ->]; eauto.
Qed.

(** X6. On a store that takes every request, [savePostsData] returns one
    saved article per unit that has a title and a link, in order, each with
    the fields line 98 sets for its unit.  Its requests are, in order: one
    update per such unit, the profile lookup for the first saved article if
    there is one, the publication record of the saved list, and the length
    of the queue.  The list is recorded as it is returned, and no profile
    is written. *)
Theorem savePostsData_on_a_reliable_store
    (deps : Deps) (batch : list ListingEntry) (w : World) :
  reliable w ->
  exists saved w',
    savePostsData deps batch w = (Resolved saved, w')
    /\ Forall2 (fun ul d => unit_update deps ul.1 ul.2 ⊆ d)
         (valid_units (extract_units batch)) saved
    /\ trace w'
       = trace w ++ omap (unit_request deps) (extract_units batch)
           ++ profile_lookup saved
           ++ [SavePubRecords saved; RedisLlen (PROFILE_LIST_KEY deps)]
    /\ pubRecords w' = pubRecords w ++ [saved]
    /\ profiles w' = profiles w.
Proof.
  intros Hrel. rewrite savePostsData_run.
  destruct (save_all_spec deps (extract_units batch) w)
    as (o & w1 & -> & Ht & Hfa & Hp & Hr & Hres & _ & Hok).
  destruct Hok as [res ->]; [by intros|].
  specialize (Hres res eq_refl).
  assert (Hrel1 : forall i, fault w1 i = false) by (by rewrite Hfa).
  destruct (omap id res) as [|p saved] eqn:E.
  - rewrite record_and_return_run. cbv zeta. rewrite !Hrel1.
    eexists _, _. split; [done|]. split; [done|]. cbn.
    rewrite Ht, Hr, Hp, <- !app_assoc. done.
  - unfold request. rewrite Hrel1. rewrite record_and_return_run. cbv zeta.
    cbn [fault logged]. rewrite !Hrel1.
    eexists _, _. split; [done|]. split; [done|]. cbn.
    rewrite Ht, Hr, Hp, <- !app_assoc. done.
Qed.

Lemma savePostsData_on_a_reliable_store_witness :
  let deps := example_deps true (js "html") in
  let batch := [ example_entry "a" "http://h/s?__biz=B&amp;mid=M&amp;idx=1";
                 example_entry EmptyString "http://h/s?__biz=B&amp;mid=M&amp;idx=2" ] in
  exists saved w',
    savePostsData deps batch empty_world = (Resolved saved, w')
    /\ Forall2 (fun ul d => unit_update deps ul.1 ul.2 ⊆ d)
         (valid_units (extract_units batch)) saved
    /\ trace w'
       = trace empty_world ++ omap (unit_request deps) (extract_units batch)
           ++ profile_lookup saved
           ++ [SavePubRecords saved; RedisLlen (PROFILE_LIST_KEY deps)]
    /\ pubRecords w' = pubRecords empty_world ++ [saved]
    /\ profiles w' = profiles empty_world.
Proof.
  intros deps batch.
  apply (savePostsData_on_a_reliable_store deps batch empty_world).
  intros i. reflexivity.
Defined.

(** X7. The updates of a batch do not wait for one another, and one that
    fails fails the batch: when the store rejects the update of one of the
    units, the updates of all the units are sent all the same, but
    [savePostsData] is rejected and goes no further; there is no profile
    lookup, no publication record and no queue length request. *)
Theorem a_rejected_update_rejects_the_batch
    (deps : Deps) (batch : list ListingEntry) (w : World) (i : nat) :
  (i < length (valid_units (extract_units batch)))%nat ->
  fault w (length (trace w) + i) = true ->
  exists w',
    savePostsData deps batch w = (Rejected, w')
    /\ trace w' = trace w ++ omap (unit_request deps) (extract_units batch)
    /\ length (omap (unit_request deps) (extract_units batch))
       = length (valid_units (extract_units batch))
    /\ pubRecords w' = pubRecords w
    /\ profiles w' = profiles w.
Proof.
  intros Hi Hf. rewrite savePostsData_run.
  destruct (save_all_spec deps (extract_units batch) w)
    as (o & w1 & -> & Ht & Hfa & Hp & Hr & _ & Hrej & _).
  rewrite Hrej by eauto. exists w1. split; [done|]. split; [done|].
  split; [|done]. by rewrite valid_units_requests, length_fmap.
Qed.

Lemma a_rejected_update_rejects_the_batch_witness :
  let deps := example_deps true (js "html") in
  let batch := [ example_entry "a" "http://h/s?__biz=B&amp;mid=M&amp;idx=1";
                 example_entry "b" "http://h/s?__biz=B&amp;mid=M&amp;idx=2";
                 example_entry "c" "http://h/s?__biz=B&amp;mid=M&amp;idx=3" ] in
  let w := with_fault (fun i => bool_decide (i = 1%nat)) empty_world in
  exists w',
    savePostsData deps batch w = (Rejected, w')
    /\ trace w' = trace w ++ omap (unit_request deps) (extract_units batch)
    /\ length (omap (unit_request deps) (extract_units batch))
       = length (valid_units (extract_units batch))
    /\ pubRecords w' = pubRecords w
    /\ profiles w' = profiles w.
Proof.
  intros deps batch w.
  apply (a_rejected_update_rejects_the_batch deps batch w 1%nat).
  - vm_compute. lia.
  - reflexivity.
Defined.

(** ** A page as a whole (lines 133-270) *)


Lemma store_ok_posts (w w' : World) :
  posts w' = posts w -> store_ok w -> store_ok w'.
Proof. unfold store_ok. by intros ->. Qed.

Lemma key_doc_lookup (key : PostKey) :
  key_doc key !! "msgBiz" = Some key.1.1
  /\ key_doc key !! "msgMid" = Some key.1.2
  /\ key_doc key !! "msgIdx" = Some key.2.
Proof.
  unfold key_doc. rewrite lookup_insert_eq.
  rewrite lookup_insert_ne, lookup_insert_eq by done.
  rewrite !lookup_insert_ne by done. by rewrite lookup_singleton_eq.
Qed.

Lemma doc_key_union_key (upd old : Doc) (key : PostKey) :
  upd !! "msgBiz" = Some key.1.1 -> upd !! "msgMid" = Some key.1.2 ->
  upd !! "msgIdx" = Some key.2 ->
  doc_key (upd ∪ old) = key.
Proof.
  intros H1 H2 H3. unfold doc_key, get.
  rewrite (lookup_union_Some_l _ _ _ _ H1), (lookup_union_Some_l _ _ _ _ H2),
    (lookup_union_Some_l _ _ _ _ H3).
  by destruct key as [[? ?] ?].
Qed.

Lemma basic_updateObj_key key link x old :
  doc_key (basic_updateObj key link x ∪ old) = key.
Proof.
  destruct (key_doc_lookup key) as (H1 & H2 & H3).
  apply doc_key_union_key; unfold basic_updateObj;
    rewrite !set_if_truthy_lookup_ne by done; by rewrite lookup_insert_ne.
Qed.

Lemma content_updateObj_key key html old :
  doc_key (content_updateObj key html ∪ old) = key.
Proof.
  destruct (key_doc_lookup key) as (H1 & H2 & H3).
  apply doc_key_union_key; unfold content_updateObj;
    rewrite !lookup_insert_ne by done; by rewrite set_if_truthy_lookup_ne.
Qed.

Lemma isFail_update_key (w : World) key :
  store_ok w ->
  doc_key ({[ "isFail" := VBool true ]} ∪ default (key_doc key) (posts w !! key))
  = key.
Proof.
  intros Hok. rewrite doc_key_union by done. by apply store_ok_default.
Qed.

Lemma store_ok_upsert_all (records : list Doc) (w : World) :
  store_ok w -> store_ok (Promise_all (upsert_one <$> records) w).2.
Proof.
  revert w. induction records as [|post records IH]; intros w Hok; [done|].
  rewrite fmap_cons. cbn [Promise_all]. rewrite upsert_one_run.
  destruct (identified post) eqn:Hid.
  - rewrite post_findOneAndUpdate_run. cbv zeta.
    destruct (fault w (length (trace w))).
    + specialize (IH (logged (PostFindOneAndUpdate (doc_key post) post) w)).
      destruct (Promise_all _ _) as [os w2]. cbn in *. by apply IH.
    + set (w1 := set_post _ _ _). specialize (IH w1).
      destruct (Promise_all _ w1) as [os w2]. cbn in *. apply IH.
      apply store_ok_set_post; [done|by apply identified_union].
  - specialize (IH w Hok). by destruct (Promise_all _ w) as [os w2].
Qed.

Lemma store_ok_getPostDetail deps link body w :
  store_ok w -> store_ok (getPostDetail deps link body w).2.
Proof.
  intros Hok.
  destruct (decide (link = [])) as [->|Hlink]; [done|].
  destruct (getIdentifying deps link body) as [key| |] eqn:Hid; cycle 1.
  1,2: rewrite getPostDetail_aborts; [done|]; right; left; intros k;
    by rewrite Hid.
  destruct (resolved_key key) eqn:Hkey; cycle 1.
  { rewrite getPostDetail_aborts; [done|]. right; left. intros k.
    rewrite Hid. by intros [= <-]. }
  destruct (getBody deps link body) as [page| |] eqn:Hbody; cycle 1.
  1,2: rewrite getPostDetail_aborts; [done|]; right; right; intros p;
    by rewrite Hbody.
  destruct (invalidated page) eqn:Hinv.
  { rewrite (getPostDetail_invalidated _ _ _ _ _ _ Hlink Hid Hkey Hbody Hinv).
    rewrite post_findOneAndUpdate_run. cbv zeta.
    destruct (fault w (length (trace w))); cbn; [done|].
    apply store_ok_set_post; [done|by apply isFail_update_key]. }
  rewrite (getPostDetail_main _ _ _ _ _ _ Hlink Hid Hkey Hbody Hinv).
  unfold bind. repeat (run_step || branch); cbn [snd].
  all: repeat first
    [ assumption
    | apply store_ok_set_post;
        [|first [apply basic_updateObj_key | apply content_updateObj_key]]
    | eapply store_ok_posts; [|eassumption]; reflexivity
    | match goal with
      | |- store_ok (logged _ ?w) => apply (store_ok_posts w); [reflexivity|]
      | |- store_ok (set_profile _ _ ?w) => apply (store_ok_posts w); [reflexivity|]
      end ].
Qed.

Lemma store_ok_savePostsData deps batch w :
  store_ok w -> store_ok (savePostsData deps batch w).2.
Proof.
  intros Hok. rewrite savePostsData_run.
  destruct (save_all_run deps (extract_units batch) w)
    as (o & w1 & -> & _ & _ & _ & _ & Hok1 & _).
  specialize (Hok1 Hok).
  assert (Hfin : forall saved w2, store_ok w2 ->
            store_ok (record_and_return deps saved w2).2).
  { intros saved w2 H2. rewrite record_and_return_run. cbv zeta.
    repeat branch; cbn; done. }
  destruct o as [res| |]; [|done..].
  destruct (omap id res) as [|p saved]; [by apply Hfin|].
  unfold request. destruct (fault w1 _); [done|]. by apply Hfin.
Qed.

(** X8. The three entry points keep the articles under their identities:
    from a store in which every article carries the identity it is stored
    under, [savePostsData], [getPostDetail] and [upsertPosts] lead to such
    a store again, whatever the store rejects on the way. *)
Theorem entry_points_keep_articles_under_their_identity
    (deps : Deps) (w : World) :
  store_ok w ->
  (forall batch, store_ok (savePostsData deps batch w).2)
  /\ (forall link body, store_ok (getPostDetail deps link body w).2)
  /\ (forall arg, store_ok (upsertPosts arg w).2).
Proof.
  intros Hok. split; [|split].
  - intros batch. by apply store_ok_savePostsData.
  - intros link body. by apply store_ok_getPostDetail.
  - intros [|post|records]; [done| |].
    + pose proof (store_ok_upsert_all [post] w Hok) as H.
      unfold upsertPosts, bind, ret.
      by destruct (Promise_all _ w) as [[[|r res]| |] w'].
    + pose proof (store_ok_upsert_all records w Hok) as H.
      rewrite upsertPosts_many_run.
      by destruct (Promise_all _ w) as [[res| |] w'].
Qed.

Lemma entry_points_keep_articles_under_their_identity_witness :
  let deps := example_deps true (js "html") in
  (forall batch, store_ok (savePostsData deps batch example_world).2)
  /\ (forall link body, store_ok (getPostDetail deps link body example_world).2)
  /\ (forall arg, store_ok (upsertPosts arg example_world).2).
Proof.
  intros deps.
  apply (entry_points_keep_articles_under_their_identity deps example_world).
  intros k d Hd. cbn in Hd. apply lookup_singleton_Some in Hd as [<- <-].
  reflexivity.
Defined.

(** X9. [getPostDetail] gives up without a trace when it has nothing to work
    on: with an empty link, or when one of the three identifiers of the
    article could not be found, the call resolves and sends no request;
    the world is as it was. *)
Theorem getPostDetail_gives_up_quietly
    (deps : Deps) (link : jsstring) (body : option jsstring) (w : World) :
  link = []
  \/ (exists key, getIdentifying deps link body = Resolved key
                  /\ resolved_key key = false) ->
  getPostDetail deps link body w = (Resolved tt, w).
Proof.
  intros [->|(key & Hid & Hkey)]; [done|].
  unfold getPostDetail, bind, lift, ret.
  destruct link as [|c link]; [done|]. cbn [truthy negb]. rewrite Hid.
  destruct key as [[b m] i]. unfold resolved_key in Hkey. cbn in Hkey.
  by destruct (truthy b), (truthy m), (truthy i).
Qed.

Lemma getPostDetail_gives_up_quietly_witness :
  getPostDetail (example_deps true (js "html"))
    (js "http://mp.weixin.qq.com/s?__biz=Bz1&idx=2") (Some example_page)
    example_world
  = (Resolved tt, example_world).
Proof.
  apply getPostDetail_gives_up_quietly. right.
  exists (VStr (js "Bz1"), VUndef, VStr (js "2")). split; reflexivity.
Defined.

Ltac concerns_all :=
  repeat (constructor; [by cbn|]); try constructor.

(** X10. [getPostDetail] is about one article and its publisher: it sends
    at most five requests, each for the article of the identity found or
    for the profile of its publisher; the other articles and the other
    profiles are as they were, and nothing is added to the publication
    records. *)
Theorem getPostDetail_touches_one_article
    (deps : Deps) (link : jsstring) (body : option jsstring)
    (key : PostKey) (w : World) :
  getIdentifying deps link body = Resolved key ->
  exists o w' ops,
    getPostDetail deps link body w = (o, w')
    /\ trace w' = trace w ++ ops
    /\ (length ops <= 5)%nat
    /\ Forall (concerns key) ops
    /\ (forall k, k <> key -> posts w' !! k = posts w !! k)
    /\ (forall biz, biz <> key.1.1 -> profiles w' !! biz = profiles w !! biz)
    /\ pubRecords w' = pubRecords w.
Proof.
  intros Hid.
  assert (Haborts : (getPostDetail deps link body w).2 = w ->
            exists o w' ops,
              getPostDetail deps link body w = (o, w')
              /\ trace w' = trace w ++ ops
              /\ (length ops <= 5)%nat
              /\ Forall (concerns key) ops
              /\ (forall k, k <> key -> posts w' !! k = posts w !! k)
              /\ (forall biz, biz <> key.1.1 ->
                              profiles w' !! biz = profiles w !! biz)
              /\ pubRecords w' = pubRecords w).
  { intros H. destruct (getPostDetail deps link body w) as [o w'] eqn:Hrun.
    cbn in H. subst w'. exists o, w, []. rewrite app_nil_r.
    repeat split; try done. cbn. lia. }
  destruct (decide (link = [])) as [->|Hlink];
    [apply Haborts, getPostDetail_aborts; by left|].
  destruct (resolved_key key) eqn:Hkey; cycle 1.
  { apply Haborts, getPostDetail_aborts. right; left. intros k.
    rewrite Hid. by intros [= <-]. }
  destruct (getBody deps link body) as [page| |] eqn:Hbody; cycle 1.
  1,2: apply Haborts, getPostDetail_aborts; right; right; intros p;
    by rewrite Hbody.
  clear Haborts.
  destruct (invalidated page) eqn:Hinv.
  { rewrite (getPostDetail_invalidated _ _ _ _ _ _ Hlink Hid Hkey Hbody Hinv).
    rewrite post_findOneAndUpdate_run. cbv zeta.
    destruct (fault w (length (trace w)));
      (eexists _, _, _; split; [reflexivity|]; split; [trace_suffix|]).
    all: cbn [posts profiles pubRecords logged set_post length].
    all: split; [lia|]; split; [concerns_all|].
    all: repeat split; try done.
    intros k Hk. by rewrite lookup_insert_ne. }
  rewrite (getPostDetail_main _ _ _ _ _ _ Hlink Hid Hkey Hbody Hinv).
  unfold bind. repeat (run_step || branch);
    (eexists _, _, _; split; [reflexivity|]; split; [trace_suffix|]).
  all: cbn [posts profiles pubRecords logged set_post set_profile length app].
  all: split; [lia|]; split; [concerns_all|].
  all: split; [intros k Hk; by rewrite ?lookup_insert_ne by done|].
  all: split; [intros b Hb; by rewrite ?lookup_insert_ne by done|done].
Qed.

Lemma getPostDetail_touches_one_article_witness :
  let deps := example_deps true (js "html") in
  let w := example_world in
  exists o w' ops,
    getPostDetail deps example_link (Some example_page) w = (o, w')
    /\ trace w' = trace w ++ ops
    /\ (length ops <= 5)%nat
    /\ Forall (concerns example_key) ops
    /\ (forall k, k <> example_key -> posts w' !! k = posts w !! k)
    /\ (forall biz, biz <> example_key.1.1 ->
                    profiles w' !! biz = profiles w !! biz)
    /\ pubRecords w' = pubRecords w.
Proof.
  intros deps w.
  apply (getPostDetail_touches_one_article deps example_link
           (Some example_page) example_key w).
  reflexivity.
Defined.

Lemma set_if_truthy_lookup_eq (f : string) (v : Value) (d : Doc) :
  truthy v = true -> set_if_truthy f v d !! f = Some v.
Proof. intros H. unfold set_if_truthy. rewrite H. apply lookup_insert_eq. Qed.

Lemma set_if_truthy_lookup_None (f g : string) (v : Value) (d : Doc) :
  d !! g = None -> f <> g -> set_if_truthy f v d !! g = None.
Proof. intros H Hne. by rewrite set_if_truthy_lookup_ne. Qed.

Lemma basic_updateObj_no_content key link x :
  basic_updateObj key link x !! "html" = None
  /\ basic_updateObj key link x !! "viewed" = None
  /\ basic_updateObj key link x !! "imported" = None.
Proof.
  unfold basic_updateObj, key_doc.
  rewrite !set_if_truthy_lookup_ne by done.
  rewrite !lookup_insert_ne by done. by rewrite !lookup_singleton_ne.
Qed.

Lemma basic_updateObj_identity key link x :
  basic_updateObj key link x !! "msgBiz" = Some key.1.1
  /\ basic_updateObj key link x !! "msgMid" = Some key.1.2
  /\ basic_updateObj key link x !! "msgIdx" = Some key.2.
Proof.
  destruct (key_doc_lookup key) as (H1 & H2 & H3).
  unfold basic_updateObj. rewrite !set_if_truthy_lookup_ne by done.
  by rewrite !lookup_insert_ne.
Qed.

Lemma content_updateObj_identity key html :
  content_updateObj key html !! "msgBiz" = Some key.1.1
  /\ content_updateObj key html !! "msgMid" = Some key.1.2
  /\ content_updateObj key html !! "msgIdx" = Some key.2.
Proof.
  destruct (key_doc_lookup key) as (H1 & H2 & H3).
  unfold content_updateObj. rewrite !lookup_insert_ne by done.
  by rewrite !set_if_truthy_lookup_ne.
Qed.

(** The update of the body leaves what the update of the basic fields
    has set. *)
Lemma basic_under_content key link x html (old : Doc) :
  basic_updateObj key link x
  ⊆ content_updateObj key html ∪ (basic_updateObj key link x ∪ old).
Proof.
  apply map_subseteq_spec. intros f v Hf.
  destruct (basic_updateObj_no_content key link x) as (N1 & N2 & N3).
  destruct (basic_updateObj_identity key link x) as (B1 & B2 & B3).
  destruct (content_updateObj_identity key html) as (C1 & C2 & C3).
  destruct (decide (f ∈ ["imported"; "viewed"; "html"; "msgBiz"; "msgMid"; "msgIdx"]))
    as [Hin|Hout].
  - repeat (apply elem_of_cons in Hin as [->|Hin]); try congruence.
    + apply lookup_union_Some_l. congruence.
    + apply lookup_union_Some_l. congruence.
    + apply lookup_union_Some_l. congruence.
    + by apply elem_of_nil in Hin.
  - rewrite lookup_union_r by (by apply content_updateObj_lookup).
    by apply lookup_union_Some_l.
Qed.

Lemma basic_updateObj_complete key link x (d : Doc) :
  link <> [] ->
  truthy (x_title x) = true -> truthy (x_wechatId x) = true ->
  basic_updateObj key link x ⊆ d ->
  has_all ["title"; "link"; "wechatId"] (Some d) = true.
Proof.
  intros Hlink Ht Hw Hsub.
  assert (H1 : basic_updateObj key link x !! "title" = Some (x_title x)).
  { unfold basic_updateObj. rewrite !set_if_truthy_lookup_ne by done.
    by apply set_if_truthy_lookup_eq. }
  assert (H2 : basic_updateObj key link x !! "link" = Some (VStr link)).
  { unfold basic_updateObj. rewrite !set_if_truthy_lookup_ne by done.
    apply lookup_insert_eq. }
  assert (H3 : basic_updateObj key link x !! "wechatId" = Some (x_wechatId x)).
  { unfold basic_updateObj. rewrite !set_if_truthy_lookup_ne by done.
    by apply set_if_truthy_lookup_eq. }
  rewrite map_subseteq_spec in Hsub.
  cbn. unfold get. rewrite (Hsub _ _ H1), (Hsub _ _ H2), (Hsub _ _ H3). cbn.
  rewrite Ht, Hw. by destruct link.
Qed.

(** X11. An article that is stored without its title, link or [wechatId],
    or not stored at all, takes what the page gives: on a store that
    takes every request and for a page that is not invalid,
    [getPostDetail] resolves and leaves the article stored with its
    identity, the link of the call and every one of the title, identifier,
    publication time, source link, cover and description that the page
    has, whatever was stored for them; and when the page has a title and
    an identifier, the stored article is complete afterwards. *)
Theorem incomplete_article_takes_the_fields_of_the_page
    (deps : Deps) (link : jsstring) (body : option jsstring)
    (key : PostKey) (page : jsstring) (w : World) :
  link <> [] ->
  getIdentifying deps link body = Resolved key ->
  resolved_key key = true ->
  getBody deps link body = Resolved page ->
  invalidated page = false ->
  reliable w ->
  has_all ["title"; "link"; "wechatId"] (posts w !! key) = false ->
  exists w' doc',
    getPostDetail deps link body w = (Resolved tt, w')
    /\ posts w' !! key = Some doc'
    /\ basic_updateObj key link (extract page) ⊆ doc'
    /\ (truthy (x_title (extract page)) = true ->
        truthy (x_wechatId (extract page)) = true ->
        has_all ["title"; "link"; "wechatId"] (Some doc') = true).
Proof.
  intros Hlink Hid Hkey Hbody Hinv Hrel Hmissing.
  rewrite (getPostDetail_main _ _ _ _ _ _ Hlink Hid Hkey Hbody Hinv).
  unfold bind.
  repeat ((run_step; rewrite ?Hrel, ?Hmissing; cbv beta iota zeta) || branch).
  all: eexists _, _; (split; [reflexivity|]).
  all: cbn [posts profiles logged set_post set_profile].
  all: rewrite ?lookup_insert_eq; (split; [reflexivity|]).
  all: assert (Hsub : basic_updateObj key link (extract page) ⊆
         basic_updateObj key link (extract page)
           ∪ default (key_doc key) (posts w !! key))
         by apply map_union_subseteq_l.
  all: match goal with
       | |- _ ⊆ content_updateObj _ _ ∪ _ /\ _ =>
           split; [apply basic_under_content|];
           intros; eapply basic_updateObj_complete; try eassumption;
           apply basic_under_content
       | |- _ =>
           split; [done|]; intros; by eapply basic_updateObj_complete
       end.
Qed.

Lemma incomplete_article_takes_the_fields_of_the_page_witness :
  let deps := example_deps true (js "html") in
  let link := js "http://mp.weixin.qq.com/s?__biz=Bz9&mid=Mid9&idx=1" in
  let key := (VStr (js "Bz9"), VStr (js "Mid9"), VStr (js "1")) in
  exists w' doc',
    getPostDetail deps link (Some example_page) example_world = (Resolved tt, w')
    /\ posts w' !! key = Some doc'
    /\ basic_updateObj key link (extract example_page) ⊆ doc'
    /\ (truthy (x_title (extract example_page)) = true ->
        truthy (x_wechatId (extract example_page)) = true ->
        has_all ["title"; "link"; "wechatId"] (Some doc') = true).
Proof.
  intros deps link key.
  apply (incomplete_article_takes_the_fields_of_the_page deps link
           (Some example_page) key example_page example_world).
  - discriminate.
  - reflexivity.
  - reflexivity.
  - reflexivity.
  - vm_compute. reflexivity.
  - intros i. reflexivity.
  - reflexivity.
Defined.

Lemma profile_updateObj_complete biz x (d : Doc) :
  truthy (x_wechatId x) = true -> truthy (x_username x) = true ->
  truthy (x_headimg x) = true ->
  profile_updateObj biz x ⊆ d ->
  has_all ["wechatId"; "username"; "headimg"] (Some d) = true.
Proof.
  intros Hw Hu Hh Hsub.
  assert (H1 : profile_updateObj biz x !! "wechatId" = Some (x_wechatId x)).
  { unfold profile_updateObj. rewrite !set_if_truthy_lookup_ne by done.
    by apply set_if_truthy_lookup_eq. }
  assert (H2 : profile_updateObj biz x !! "username" = Some (x_username x)).
  { unfold profile_updateObj. rewrite !set_if_truthy_lookup_ne by done.
    by apply set_if_truthy_lookup_eq. }
  assert (H3 : profile_updateObj biz x !! "headimg" = Some (x_headimg x)).
  { unfold profile_updateObj. by apply set_if_truthy_lookup_eq. }
  rewrite map_subseteq_spec in Hsub.
  cbn. unfold get. rewrite (Hsub _ _ H1), (Hsub _ _ H2), (Hsub _ _ H3). cbn.
  by rewrite Hw, Hu, Hh.
Qed.

(** X12. A profile that is stored without its [wechatId], [username] or
    [headimg], or not stored at all, takes what the page gives: on a store
    that takes every request and for a page that is not invalid,
    [getPostDetail] leaves the profile of the publisher stored with its
    [msgBiz] and every one of the name, identifier, user name and avatar
    that the page has, the other fields as they were; when the page has
    the identifier, user name and avatar, the stored profile is complete
    afterwards. *)
Theorem incomplete_profile_takes_the_fields_of_the_page
    (deps : Deps) (link : jsstring) (body : option jsstring)
    (key : PostKey) (page : jsstring) (w : World) :
  link <> [] ->
  getIdentifying deps link body = Resolved key ->
  resolved_key key = true ->
  getBody deps link body = Resolved page ->
  invalidated page = false ->
  reliable w ->
  has_all ["wechatId"; "username"; "headimg"] (profiles w !! key.1.1) = false ->
  exists w',
    getPostDetail deps link body w = (Resolved tt, w')
    /\ profiles w' !! key.1.1
       = Some (profile_updateObj key.1.1 (extract page)
               ∪ default {[ "msgBiz" := key.1.1 ]} (profiles w !! key.1.1))
    /\ (truthy (x_wechatId (extract page)) = true ->
        truthy (x_username (extract page)) = true ->
        truthy (x_headimg (extract page)) = true ->
        has_all ["wechatId"; "username"; "headimg"] (profiles w' !! key.1.1)
        = true).
Proof.
  intros Hlink Hid Hkey Hbody Hinv Hrel Hmissing.
  rewrite (getPostDetail_main _ _ _ _ _ _ Hlink Hid Hkey Hbody Hinv).
  unfold bind.
  repeat ((run_step; rewrite ?Hrel, ?Hmissing; cbv beta iota zeta) || branch).
  all: eexists; (split; [reflexivity|]).
  all: cbn [posts profiles logged set_post set_profile].
  all: rewrite ?lookup_insert_eq; (split; [reflexivity|]).
  all: intros; eapply profile_updateObj_complete; try eassumption.
  all: apply map_union_subseteq_l.
Qed.

Lemma incomplete_profile_takes_the_fields_of_the_page_witness :
  let deps := example_deps true (js "html") in
  let link := js "http://mp.weixin.qq.com/s?__biz=Bz9&mid=Mid9&idx=1" in
  let key := (VStr (js "Bz9"), VStr (js "Mid9"), VStr (js "1")) in
  let w := example_world in
  exists w',
    getPostDetail deps link (Some example_page) w = (Resolved tt, w')
    /\ profiles w' !! key.1.1
       = Some (profile_updateObj key.1.1 (extract example_page)
               ∪ default {[ "msgBiz" := key.1.1 ]} (profiles w !! key.1.1))
    /\ (truthy (x_wechatId (extract example_page)) = true ->
        truthy (x_username (extract example_page)) = true ->
        truthy (x_headimg (extract example_page)) = true ->
        has_all ["wechatId"; "username"; "headimg"] (profiles w' !! key.1.1)
        = true).
Proof.
  intros deps link key w.
  apply (incomplete_profile_takes_the_fields_of_the_page deps link
           (Some example_page) key example_page w).
  - discriminate.
  - reflexivity.
  - reflexivity.
  - reflexivity.
  - vm_compute. reflexivity.
  - intros i. reflexivity.
  - reflexivity.
Defined.

(** *** The body *)

Lemma trim_start_suffix (s : jsstring) :
  exists p, s = p ++ trim_start s.
Proof.
  induction s as [|c s [p IH]]; [by exists []|]. cbn.
  destruct (is_space c); [|by exists []].
  exists (c :: p). cbn. by f_equal.
Qed.

Lemma trim_start_head (s : jsstring) (c : N) :
  head (trim_start s) = Some c -> is_space c = false.
Proof.
  induction s as [|x s IH]; [done|]. cbn.
  destruct (is_space x) eqn:E; [done|]. cbn. congruence.
Qed.

Lemma trim_ends (s : jsstring) (c : N) :
  head (trim s) = Some c \/ last (trim s) = Some c -> is_space c = false.
Proof.
  unfold trim. rewrite head_reverse, last_reverse.
  intros [H|H]; [|by eapply trim_start_head].
  destruct (trim_start_suffix (reverse (trim_start s))) as [p Hp].
  apply (trim_start_head s). rewrite <- last_reverse, Hp.
  rewrite last_app, H. done.
Qed.

Lemma content_html_cases deps body :
  content_html deps body
  = if bool_decide (saveContentType deps = js "html")
    then VStr (trim (default [] (js_content_html deps body)))
    else VUndef.
Proof.
  unfold content_html. case_bool_decide; [|done]. cbv zeta.
  destruct (default [] (js_content_html deps body)) as [|c s]; reflexivity.
Qed.

(** X13. The body is not written unless there is one to write: when
    [isSavePostContent] is off, or [saveContentType] is not ['html'] (the
    text mode assigns nothing), or the page has no [#js_content] element or
    one whose markup is only white space, lines 227-269 send no request
    and change nothing. *)
Theorem no_content_no_write
    (deps : Deps) (key : PostKey) (doc : option Doc) (body : jsstring)
    (w : World) :
  isSavePostContent deps = false
  \/ saveContentType deps <> js "html"
  \/ trim (default [] (js_content_html deps body)) = [] ->
  save_content deps key doc body w = (Resolved tt, w).
Proof.
  intros H. rewrite save_content_run, content_html_cases.
  destruct H as [->|[H|H]]; [done| |].
  - rewrite bool_decide_false by done. by rewrite !andb_false_r.
  - rewrite H. case_bool_decide; by rewrite !andb_false_r.
Qed.

Lemma no_content_no_write_witness :
  save_content (example_deps true (js "text")) example_key
    (Some complete_article) example_page example_world
  = (Resolved tt, example_world).
Proof.
  apply no_content_no_write. right; left. discriminate.
Defined.

(** X14. The body that is written is the markup of [#js_content] without
    the white space around it: with [isSavePostContent] on and
    [saveContentType] ['html'], a page whose element has more than white
    space makes lines 227-269 send one update that sets [html] to the
    trimmed markup, [viewed] to true and [imported] to false (and the
    identity), whatever is stored; the markup sent is not empty and
    neither starts nor ends with white space. *)
Theorem content_is_written_trimmed
    (deps : Deps) (key : PostKey) (doc : option Doc) (body : jsstring)
    (w : World) :
  isSavePostContent deps = true ->
  saveContentType deps = js "html" ->
  trim (default [] (js_content_html deps body)) <> [] ->
  let html := trim (default [] (js_content_html deps body)) in
  trace (save_content deps key doc body w).2
  = trace w
    ++ [PostFindOneAndUpdate key
          (<["imported" := VBool false]>
             (<["viewed" := VBool true]>
                (<["html" := VStr html]> (key_doc key))))]
  /\ (forall c, head html = Some c \/ last html = Some c -> is_space c = false).
Proof.
  intros Hsave Htype Hne html. split; [|apply trim_ends].
  rewrite save_content_run, content_html_cases, Hsave, shouldSaveToDb_true.
  rewrite bool_decide_true by done. subst html.
  destruct (trim (default [] (js_content_html deps body))) as [|c r];
    [by destruct Hne|].
  cbn [truthy andb]. cbv zeta. unfold content_updateObj, set_if_truthy.
  cbn [truthy]. by destruct (fault w (length (trace w))).
Qed.

Lemma content_is_written_trimmed_witness :
  let deps := example_deps true (js "html") in
  let html := trim (default [] (js_content_html deps example_page)) in
  html = js "<p>new</p>"
  /\ trace (save_content deps example_key (Some complete_article)
              example_page example_world).2
     = trace example_world
       ++ [PostFindOneAndUpdate example_key
             (<["imported" := VBool false]>
                (<["viewed" := VBool true]>
                   (<["html" := VStr html]> (key_doc example_key))))]
  /\ (forall c, head html = Some c \/ last html = Some c -> is_space c = false).
Proof.
  intros deps html. split; [vm_compute; reflexivity|].
  apply (content_is_written_trimmed deps example_key (Some complete_article)
           example_page example_world).
  - reflexivity.
  - reflexivity.
  - vm_compute. discriminate.
Defined.

(** ** The handler when the store fails, and from call to call (lines 32-61) *)

Module FindProfileHandlerMore.
Import FindProfileHandler FindProfileHandlerProps.

(** X15. While a key is not resolved no call for it has returned: nobody
    gets an answer before the store has given one. *)
Theorem no_answer_before_the_store
    (es : list Event) (s : Run) (biz : Value) (me : nat) :
  run es (start new) = Some s ->
  profileMap (this s) !! biz = None ->
  calls s !! me = Some biz ->
  returned s !! me = None.
Proof.
  intros Hrun Hpm Hc.
  assert (Hinv : invariant s) by (eapply invariant_run; [apply invariant_start|done]).
  destruct (returned s !! me) as [d|] eqn:Hr; [|done].
  destruct (inv_returned _ Hinv _ _ Hr) as (b & Hb & Hd). congruence.
Qed.

Lemma no_answer_before_the_store_witness :
  let biz := VStr (js "Bz1") in
  let es := [Call biz; Call biz; Call (VStr (js "Bz2")); QueryResolves 2 None] in
  let s := default (start new) (run es (start new)) in
  returned s !! 1%nat = None.
Proof.
  intros biz es s.
  apply (no_answer_before_the_store es s biz 1%nat); reflexivity.
Defined.

(** X16. A rejected query is never made again: once the store has rejected
    the query of the call that leads a key, whatever happens next on the
    handler, the key stays unresolved, it has still been queried once, no
    call for it returns, and a new call for it only joins the waiting
    list. *)
Theorem rejected_query_is_not_retried
    (es es' : list Event) (s s' : Run) (biz : Value) (leader ref : nat) :
  run es (start new) = Some s ->
  awaiting s !! leader = Some (biz, ref) ->
  run (QueryRejects leader :: es') s = Some s' ->
  profileMap (this s') !! biz = None
  /\ times_queried biz s' = 1%nat
  /\ (forall me, calls s' !! me = Some biz -> returned s' !! me = None)
  /\ (find_call biz s').2 = Waits.
Proof.
  intros Hrun Ha Hrun'.
  assert (Hinv : invariant s) by (eapply invariant_run; [apply invariant_start|done]).
  cbn [run step] in Hrun'.
  destruct (query_rejects leader s) as [s1|] eqn:Hs1; [|done].
  assert (Hinv1 : invariant s1) by (by eapply invariant_query_rejects).
  assert (Hinv' : invariant s') by (by eapply invariant_run).
  assert (Hst : stuck biz s').
  { eapply stuck_run; [exact Hinv1| |exact Hrun'].
    exact (query_rejects_stuck s leader biz ref s1 Hinv Ha Hs1). }
  destruct Hst as (Hpm & [r Hwm] & Haw).
  split; [done|]. split; [|split].
  - apply times_queried_once; [done|]. apply (inv_known _ Hinv'). eauto.
  - intros me Hc. destruct (returned s' !! me) as [d|] eqn:Hr; [|done].
    destruct (inv_returned _ Hinv' _ _ Hr) as (b & Hb & Hd). congruence.
  - unfold find_call. by rewrite Hpm, Hwm.
Qed.

Lemma rejected_query_is_not_retried_witness :
  let biz := VStr (js "Bz1") in
  let es := [Call biz; Call biz] in
  let es' := [Call biz; Call (VStr (js "Bz2")); QueryResolves 3 None; Call biz] in
  let s := default (start new) (run es (start new)) in
  let s' := default (start new) (run (QueryRejects 0 :: es') s) in
  profileMap (this s') !! biz = None
  /\ times_queried biz s' = 1%nat
  /\ (forall me, calls s' !! me = Some biz -> returned s' !! me = None)
  /\ (find_call biz s').2 = Waits.
Proof.
  intros biz es es' s s'.
  apply (rejected_query_is_not_retried es es' s s' biz 0%nat
           (fresh (dom (arrays (start new))))); reflexivity.
Defined.

(** X17. What [find] has found is kept as it is: on a handler where the
    key is neither resolved nor in flight, a [find] that nothing
    interrupts sends one lookup and returns what the profiles hold for the
    key ([null] when nothing); a [find] for the key on the handler it
    leaves returns the same value without a request, whatever the
    profiles hold by then. *)
Theorem find_keeps_what_it_found
    (biz : Value) (s : Run) (w w2 : World) :
  profileMap (this s) !! biz = None ->
  profileWaitingMap (this s) !! biz = None ->
  fault w (length (trace w)) = false ->
  exists s1,
    find biz s w
    = (Resolved (profiles w !! biz, s1), logged (ProfileFindOne biz) w)
    /\ exists s2, find biz s1 w2 = (Resolved (profiles w !! biz, s2), w2).
Proof.
  intros Hpm Hwm Hf. unfold find at 1, find_call. rewrite Hpm, Hwm.
  rewrite profile_findOne_run. cbv zeta. rewrite Hf.
  unfold query_resolves. cbn [awaiting]. rewrite lookup_insert_eq.
  eexists. split; [reflexivity|].
  unfold find, find_call. cbn [this profileMap]. rewrite lookup_insert_eq.
  eexists. reflexivity.
Qed.

Lemma find_keeps_what_it_found_witness :
  let biz := VStr (js "Bz1") in
  exists s1,
    find biz (start new) example_world
    = (Resolved (profiles example_world !! biz, s1),
       logged (ProfileFindOne biz) example_world)
    /\ exists s2,
         find biz s1 empty_world
         = (Resolved (profiles example_world !! biz, s2), empty_world).
Proof.
  intros biz.
  apply (find_keeps_what_it_found biz (start new) example_world empty_world);
    reflexivity.
Defined.

End FindProfileHandlerMore.

(** ** Upserting twice (lines 272-292) *)

Lemma upsertPosts_one_run (post : Doc) (w : World) :
  upsertPosts (One post) w
  = match upsert_one post w with
    | (Resolved r, w') => (Resolved (Single r), w')
    | (Rejected, w') => (Rejected, w')
    | (Pending, w') => (Pending, w')
    end.
Proof.
  unfold upsertPosts, bind, ret. cbn [fmap list_fmap Promise_all].
  by destruct (upsert_one post w) as [[]].
Qed.

(** X18. Upserting a record merges it into what is stored, and doing it
    again changes nothing: on a store that takes every request, a record
    with its identifiers is stored with its own fields over the fields the
    article had (the fields the record does not name are kept), and
    upserting the same record a second time returns the same document and
    leaves the articles as they are. *)
Theorem upsert_merges_and_is_idempotent (w : World) (post : Doc) :
  reliable w ->
  identified post = true ->
  let old := default (key_doc (doc_key post)) (posts w !! doc_key post) in
  let r1 := upsertPosts (One post) w in
  let r2 := upsertPosts (One post) r1.2 in
  r1.1 = Resolved (Single (Some (post ∪ old)))
  /\ posts r1.2 !! doc_key post = Some (post ∪ old)
  /\ (forall f, post !! f = None -> (post ∪ old) !! f = old !! f)
  /\ r2.1 = r1.1
  /\ posts r2.2 = posts r1.2.
Proof.
  intros Hrel Hid old r1 r2. subst r1 r2.
  rewrite !upsertPosts_one_run, !upsert_one_run, Hid.
  rewrite post_findOneAndUpdate_run. cbv zeta. rewrite Hrel. cbn [fst snd].
  rewrite post_findOneAndUpdate_run. cbv zeta.
  cbn [fault trace posts logged set_post]. rewrite Hrel. cbn [fst snd].
  cbn [posts logged set_post]. rewrite lookup_insert_eq. cbn [default].
  fold old.
  assert (Hsame : post ∪ (post ∪ old) = post ∪ old)
    by (by rewrite (assoc_L (∪)), (idemp_L (∪))).
  change (id (post ∪ old)) with (post ∪ old).
  rewrite Hsame, insert_insert_eq.
  repeat split; try done.
  intros f Hf. by apply lookup_union_r.
Qed.

Lemma upsert_merges_and_is_idempotent_witness :
  let post : Doc :=
    {[ "msgBiz" := VStr (js "Bz1"); "msgMid" := VStr (js "Mid1");
       "msgIdx" := VStr (js "2"); "title" := VStr (js "Newer title") ]} in
  let w := example_world in
  let old := default (key_doc (doc_key post)) (posts w !! doc_key post) in
  let r1 := upsertPosts (One post) w in
  let r2 := upsertPosts (One post) r1.2 in
  r1.1 = Resolved (Single (Some (post ∪ old)))
  /\ posts r1.2 !! doc_key post = Some (post ∪ old)
  /\ (forall f, post !! f = None -> (post ∪ old) !! f = old !! f)
  /\ r2.1 = r1.1
  /\ posts r2.2 = posts r1.2.
Proof.
  intros post w.
  apply (upsert_merges_and_is_idempotent w post).
  - intros i. reflexivity.
  - reflexivity.
Defined.
